(** * Doppler residual block of gici-open: shallow embedding and properties

    The development embeds [src/src/gnss/doppler_error.cpp] (the class
    template [DopplerError<Ns...>]): its two constructors, [setInformation],
    [Evaluate] and [EvaluateWithMinimalJacobians].

    Numbers.  A C++ [double] is modelled by a real number ([R] of the
    Standard Library): sums, products, quotients and square roots are the
    exact ones.  An [int] is a [Z].

    Pointers.  A [double*] is a [Buffer], the function giving the double
    at each offset; the code never checks a bound, and neither does the
    model.  A nullable pointer is an [option].  An array of pointers
    ([double**]) is a function from the index to the pointer.  The buffers
    reached through different pointers are taken to be disjoint, as they
    are for the solver that calls the factor.

    Process termination.  [LOG(FATAL)] ends the process: a call that
    reaches it has the outcome [Fatal] and produces nothing else.  A C++
    exception leaving a call is the outcome [Thrown]. *)

From Stdlib Require Import Reals Lra List ZArith String Ascii Bool Lia.
Import ListNotations.

Open Scope R_scope.

(** ** Outcomes of a call *)

Inductive Outcome (A : Type) : Type :=
| Fatal (msg : string)
| Thrown (exn : string)
| Returned (a : A).

Arguments Fatal {A} msg.
Arguments Thrown {A} exn.
Arguments Returned {A} a.

Definition bind {A B : Type} (o : Outcome A) (k : A -> Outcome B) : Outcome B :=
  match o with
  | Fatal m => Fatal m
  | Thrown e => Thrown e
  | Returned a => k a
  end.

Notation "x <- o ;; k" := (bind o (fun x => k))
  (at level 61, o at next level, right associativity).

(** ** Raw memory *)

Definition Buffer : Type := nat -> R.

(** The buffer holding the doubles of [l], followed by zeros. *)
Definition of_list (l : list R) : Buffer := fun j => nth j l 0.

(** Reading [n] consecutive doubles: an [Eigen::Map] of [n] coefficients
    used as a value. *)
Definition load (n : nat) (b : Buffer) : list R := map b (seq 0 n).

(** Assigning a row of coefficients through an [Eigen::Map]: the first
    [length vals] doubles are overwritten, the others are kept. *)
Definition store (vals : list R) (b : Buffer) : Buffer :=
  fun j => nth j vals (b j).

(** A [double**]: each entry is null or points to a buffer. *)
Definition PointerArray : Type := nat -> option Buffer.

(** [Map(arr[i]) = vals] for a non-null [arr[i]]. *)
Definition store_at (i : nat) (vals : list R) (arr : PointerArray) : PointerArray :=
  fun k => if Nat.eqb k i then option_map (store vals) (arr k) else arr k.

(** ** Eigen's fixed-size types, as far as the code uses them *)

Module Eigen.

(** [Eigen::Vector3d], a 3 x 1 column. *)
Record Vector3d : Type := V3 { vx : R; vy : R; vz : R }.

(** [Eigen::Matrix<double, 1, 3>], a 1 x 3 row. *)
Record RowVector3d : Type := RV3 { rx : R; ry : R; rz : R }.

(** [Eigen::Matrix3d], by rows. *)
Record Matrix3d : Type := M3 { row0 : RowVector3d; row1 : RowVector3d; row2 : RowVector3d }.

(** [Eigen::Quaterniond]; its coefficients are stored in the order
    x, y, z, w. *)
Record Quaterniond : Type := Quat { qx : R; qy : R; qz : R; qw : R }.

(** A 1 x n row for the wider blocks (n = 6, 7, 9), and a matrix with more
    than three columns as the list of its rows. *)
Definition RowVector : Type := list R.
Definition Matrix : Type := list RowVector.

Definition Map_Vector3d (b : Buffer) (off : nat) : Vector3d :=
  V3 (b off) (b (off + 1)%nat) (b (off + 2)%nat).

Definition Map_Quaterniond (b : Buffer) (off : nat) : Quaterniond :=
  Quat (b off) (b (off + 1)%nat) (b (off + 2)%nat) (b (off + 3)%nat).

(** A row-major [rows] x [ncols] matrix read from its data pointer. *)
Definition Map_RowMajor (rows ncols : nat) (data : Buffer) : Matrix :=
  map (fun i => map (fun j => data (i * ncols + j)%nat) (seq 0 ncols)) (seq 0 rows).

Definition vadd (a b : Vector3d) : Vector3d :=
  V3 (vx a + vx b) (vy a + vy b) (vz a + vz b).

Definition vsub (a b : Vector3d) : Vector3d :=
  V3 (vx a - vx b) (vy a - vy b) (vz a - vz b).

Definition vdiv (a : Vector3d) (s : R) : Vector3d :=
  V3 (vx a / s) (vy a / s) (vz a / s).

Definition vscale (s : R) (a : Vector3d) : Vector3d :=
  V3 (s * vx a) (s * vy a) (s * vz a).

Definition vdot (a b : Vector3d) : R :=
  vx a * vx b + vy a * vy b + vz a * vz b.

Definition cross (a b : Vector3d) : Vector3d :=
  V3 (vy a * vz b - vz a * vy b)
     (vz a * vx b - vx a * vz b)
     (vx a * vy b - vy a * vx b).

(** [v.transpose()]. *)
Definition transpose (v : Vector3d) : RowVector3d := RV3 (vx v) (vy v) (vz v).

(** Unary minus on a row and on a matrix. *)
Definition rneg (r : RowVector3d) : RowVector3d := RV3 (- rx r) (- ry r) (- rz r).

Definition mneg (m : Matrix3d) : Matrix3d :=
  M3 (rneg (row0 m)) (rneg (row1 m)) (rneg (row2 m)).

(** [Matrix<double, 1, 3>::Zero()]. *)
Definition RowVector3d_Zero : RowVector3d := RV3 0 0 0.

(** row * column *)
Definition rdot (r : RowVector3d) (v : Vector3d) : R :=
  rx r * vx v + ry r * vy v + rz r * vz v.

(** The columns of a 3 x 3 matrix. *)
Definition col0 (m : Matrix3d) : Vector3d := V3 (rx (row0 m)) (rx (row1 m)) (rx (row2 m)).
Definition col1 (m : Matrix3d) : Vector3d := V3 (ry (row0 m)) (ry (row1 m)) (ry (row2 m)).
Definition col2 (m : Matrix3d) : Vector3d := V3 (rz (row0 m)) (rz (row1 m)) (rz (row2 m)).

(** row * matrix *)
Definition rmul (r : RowVector3d) (m : Matrix3d) : RowVector3d :=
  RV3 (rdot r (col0 m)) (rdot r (col1 m)) (rdot r (col2 m)).

(** matrix * matrix *)
Definition mmul (a b : Matrix3d) : Matrix3d :=
  M3 (rmul (row0 a) b) (rmul (row1 a) b) (rmul (row2 a) b).

(** matrix * column *)
Definition mvec (m : Matrix3d) (v : Vector3d) : Vector3d :=
  V3 (rdot (row0 m) v) (rdot (row1 m) v) (rdot (row2 m) v).

(** The coefficients of a 1 x 3 row, in storage order. *)
Definition coeffs (r : RowVector3d) : RowVector := [rx r; ry r; rz r].

(** [Matrix<double, 1, n>::Zero()] and [setZero()] on a 1 x n row. *)
Definition Zero (n : nat) : RowVector := repeat 0 n.

(** Assigning [vals] to the columns [start], [start + 1], ... of a 1 x n
    row: [topLeftCorner(1, 3)] is [set_cols 0], and [topRightCorner(1, 3)]
    of a 1 x 6 row is [set_cols 3]. *)
Definition set_cols (start : nat) (vals : RowVector) (r : RowVector) : RowVector :=
  firstn start r ++ vals ++ skipn (start + List.length vals) r.

(** A 1 x 1 matrix times a row: every coefficient is multiplied. *)
Definition scale (s : R) (r : RowVector) : RowVector := map (Rmult s) r.

Definition dotl (a b : list R) : R :=
  fold_right Rplus 0 (map (fun p => fst p * snd p) (combine a b)).

Definition column (j : nat) (m : Matrix) : list R :=
  map (fun row => nth j row 0) m.

(** A 1 x k row times a k x [ncols] matrix. *)
Definition row_times (ncols : nat) (r : RowVector) (m : Matrix) : RowVector :=
  map (fun j => dotl r (column j m)) (seq 0 ncols).

(** [q * v] for a quaternion and a vector: Eigen's
    [QuaternionBase::_transformVector]. *)
Definition transformVector (q : Quaterniond) (v : Vector3d) : Vector3d :=
  let qv := V3 (qx q) (qy q) (qz q) in
  let uv := cross qv v in
  let uv := vadd uv uv in
  vadd (vadd v (vscale (qw q) uv)) (cross qv uv).

(** [q.toRotationMatrix()]. *)
Definition toRotationMatrix (q : Quaterniond) : Matrix3d :=
  let tx := 2 * qx q in
  let ty := 2 * qy q in
  let tz := 2 * qz q in
  let twx := tx * qw q in
  let twy := ty * qw q in
  let twz := tz * qw q in
  let txx := tx * qx q in
  let txy := ty * qx q in
  let txz := tz * qx q in
  let tyy := ty * qy q in
  let tyz := tz * qy q in
  let tzz := tz * qz q in
  M3 (RV3 (1 - (tyy + tzz)) (txy - twz) (txz + twy))
     (RV3 (txy + twz) (1 - (txx + tzz)) (tyz - twx))
     (RV3 (txz - twy) (tyz + twx) (1 - (txx + tyy))).

(** The factor L of the Cholesky decomposition of a 1 x 1 matrix,
    [LLT::matrixL()]; its transpose is itself. *)
Definition llt_matrixL (a : R) : R := sqrt a.

End Eigen.

Import Eigen.

(** ** Collaborators of the residual block

    The residual file includes [gnss_common.h], [transform.h] and
    [pose_local_parameterization.h]; what it uses of them is collected
    here.  Constants and functions whose definition the file does not
    contain are the fields of [External]: every definition and theorem
    below holds for any value of them. *)

(** The frames named by the residual block. *)
Inductive GeoType : Type := ENU | ECEF.

(** The frame-conversion utility behind [coordinate_], through the four
    members the block calls. *)
Record GeoCoordinate : Type := {
  isZeroSetted : bool;
  convert : Vector3d -> GeoType -> GeoType -> Vector3d;
  rotate : Vector3d -> GeoType -> GeoType -> Vector3d;
  rotationMatrix : GeoType -> GeoType -> Matrix3d
}.

Record External : Type := {
  (** earth rotation rate and speed of light *)
  OMGE : R;
  CLIGHT : R;
  (** [gnss_common::satelliteToReceiverDistance] and its two siblings,
      called with the satellite position and the receiver position *)
  satelliteToReceiverDistance : Vector3d -> Vector3d -> R;
  satelliteElevation : Vector3d -> Vector3d -> R;
  satelliteAzimuth : Vector3d -> Vector3d -> R;
  (** [PoseLocalParameterization::liftJacobian(x, jacobian)]: from the raw
      pose buffer [x] to the 42 doubles it writes at [jacobian] *)
  liftJacobian : Buffer -> Buffer;
  (** the content of the member [angular_velocity_] before any assignment *)
  angular_velocity_initial : Vector3d
}.

(** Modelled from the spec: [skewSymmetric], declared in
    [gici/utility/transform.h], "skew-symmetric(angular velocity)": the
    matrix of the cross product with its argument. *)
Definition skewSymmetric (w : Vector3d) : Matrix3d :=
  M3 (RV3 0 (- vz w) (vy w))
     (RV3 (vz w) 0 (- vx w))
     (RV3 (- vy w) (vx w) 0).

(** Modelled from the spec: [square], a helper of the utility headers,
    "(base Doppler error factor) squared". *)
Definition square (x : R) : R := x * x.

(** ** Data model *)

Record Satellite : Type := {
  getSystem : ascii;
  sat_position : Vector3d;
  sat_velocity : Vector3d;
  sat_frequency : R
}.

Record Observation : Type := {
  doppler : R
}.

(** The key of a satellite observation inside one epoch. *)
Definition GnssMeasurementIndex : Type := nat.

Record GnssMeasurement : Type := {
  timestamp : R;
  getSat : GnssMeasurementIndex -> Satellite;
  getObs : GnssMeasurementIndex -> Observation
}.

(** [system_error_ratio] is a [std::map<char, double>]: an association
    list, read with [at]. *)
Record GnssErrorParameter : Type := {
  doppler_error_factor : R;
  system_error_ratio : list (ascii * R)
}.

(** [std::map::at]: the mapped value, or [std::out_of_range]. *)
Fixpoint map_at (m : list (ascii * R)) (key : ascii) : Outcome R :=
  match m with
  | [] => Thrown "std::out_of_range"
  | (k, v) :: rest => if Ascii.eqb k key then Returned v else map_at rest key
  end.

(** The members written by [setInformation]; all are 1 x 1 matrices. *)
Record Weighting : Type := {
  covariance_ : R;
  information_ : R;
  square_root_information_ : R;
  square_root_information_inverse_ : R
}.

(** An instance of [DopplerError<Ns...>]. *)
Record DopplerError : Type := {
  measurement_ : GnssMeasurement;
  satellite_ : Satellite;
  observation_ : Observation;
  is_estimate_body_ : bool;
  parameter_block_group_ : Z;
  error_parameter_ : GnssErrorParameter;
  weighting_ : Weighting;
  angular_velocity_ : Vector3d;
  coordinate_ : option GeoCoordinate
}.

(** ** Construction *)

(** [dims_.kNumParameterBlocks] and [dims_.GetDim(i)] for the template
    arguments [Ns...]. *)
Definition kNumParameterBlocks (Ns : list Z) : Z := Z.of_nat (List.length Ns).

Definition GetDim (Ns : list Z) (i : nat) : Z := nth i Ns 0%Z.

(** [DopplerError::setInformation]. *)
Definition setInformation (satellite : Satellite) (error_parameter : GnssErrorParameter)
  : Outcome Weighting :=
  let factor := doppler_error_factor error_parameter in
  let covariance := square factor in
  let system := getSystem satellite in
  ratio <- map_at (system_error_ratio error_parameter) system ;;
  let covariance := covariance * square ratio in
  let information := / covariance in
  let square_root_information := llt_matrixL information in
  let square_root_information_inverse := / square_root_information in
  Returned {| covariance_ := covariance;
              information_ := information;
              square_root_information_ := square_root_information;
              square_root_information_inverse_ := square_root_information_inverse |}.

(** The check of the parameter block types: [is_estimate_body_] and
    [parameter_block_group_], or the fatal log. *)
Definition check_parameter_blocks (Ns : list Z) : Outcome (bool * Z) :=
  if ((kNumParameterBlocks Ns =? 3) && (GetDim Ns 0 =? 3) && (GetDim Ns 1 =? 3)
      && (GetDim Ns 2 =? 1))%Z
  then Returned (false, 1%Z)
  else if ((kNumParameterBlocks Ns =? 4) && (GetDim Ns 0 =? 7) && (GetDim Ns 1 =? 9)
           && (GetDim Ns 2 =? 3) && (GetDim Ns 3 =? 1))%Z
  then Returned (true, 2%Z)
  else Fatal "DopplerError parameter blocks setup invalid!".

Section Construction.

Variable ext : External.

(** The constructor taking the measurement, the index and the error
    parameters. *)
Definition DopplerError_ctor (Ns : list Z) (measurement : GnssMeasurement)
    (index : GnssMeasurementIndex) (error_parameter : GnssErrorParameter)
  : Outcome DopplerError :=
  let satellite := getSat measurement index in
  let observation := getObs measurement index in
  group <- check_parameter_blocks Ns ;;
  weighting <- setInformation satellite error_parameter ;;
  Returned {| measurement_ := measurement;
              satellite_ := satellite;
              observation_ := observation;
              is_estimate_body_ := fst group;
              parameter_block_group_ := snd group;
              error_parameter_ := error_parameter;
              weighting_ := weighting;
              angular_velocity_ := angular_velocity_initial ext;
              coordinate_ := None |}.

(** The constructor that also takes the angular velocity: it delegates,
    then assigns the member. *)
Definition DopplerError_ctor_angular (Ns : list Z) (measurement : GnssMeasurement)
    (index : GnssMeasurementIndex) (error_parameter : GnssErrorParameter)
    (angular_velocity : Vector3d) : Outcome DopplerError :=
  this <- DopplerError_ctor Ns measurement index error_parameter ;;
  Returned {| measurement_ := measurement_ this;
              satellite_ := satellite_ this;
              observation_ := observation_ this;
              is_estimate_body_ := is_estimate_body_ this;
              parameter_block_group_ := parameter_block_group_ this;
              error_parameter_ := error_parameter_ this;
              weighting_ := weighting_ this;
              angular_velocity_ := angular_velocity;
              coordinate_ := coordinate_ this |}.

End Construction.

(** Modelled from the spec: the setter of [coordinate_], declared in the
    class headers; the factor holds "a reference to the frame-conversion
    utility". *)
Definition setCoordinate (this : DopplerError) (coordinate : GeoCoordinate) : DopplerError :=
  {| measurement_ := measurement_ this;
     satellite_ := satellite_ this;
     observation_ := observation_ this;
     is_estimate_body_ := is_estimate_body_ this;
     parameter_block_group_ := parameter_block_group_ this;
     error_parameter_ := error_parameter_ this;
     weighting_ := weighting_ this;
     angular_velocity_ := angular_velocity_ this;
     coordinate_ := Some coordinate |}.

(** ** Evaluation *)

(** What [EvaluateWithMinimalJacobians] can write to: the residual buffer
    and the buffers behind the two nullable arrays of nullable pointers. *)
Record Memory : Type := {
  residuals : Buffer;
  jacobians : option PointerArray;
  jacobians_minimal : option PointerArray
}.

(** The locals that only the body-referenced branch assigns, with the
    frame utility it has found behind [coordinate_]. *)
Record BodyLocals : Type := {
  q_WS : Quaterniond;
  t_SR_S : Vector3d;
  coordinate : GeoCoordinate
}.

(** The locals every later line reads. *)
Record Locals : Type := {
  t_WR_ECEF : Vector3d;
  v_WR_ECEF : Vector3d;
  clock_frequency : R;
  body : option BodyLocals
}.

(** The rows assigned under [if (is_estimate_body_)]. *)
Record BodyJacobians : Type := {
  J_T_WS : RowVector;
  J_speed_and_bias : RowVector;
  J_t_SR_S : RowVector3d
}.

Section Evaluation.

Variable ext : External.
Variable this : DopplerError.

(** Lines 100-136: position, velocity and clock from the parameter
    blocks. *)
Definition decode (parameters : nat -> Buffer) : Outcome Locals :=
  if negb (is_estimate_body_ this) then
    Returned {| t_WR_ECEF := Map_Vector3d (parameters 0%nat) 0;
                v_WR_ECEF := Map_Vector3d (parameters 1%nat) 0;
                clock_frequency := parameters 2%nat 0%nat;
                body := None |}
  else
    let t_WS_W := Map_Vector3d (parameters 0%nat) 0 in
    let q_WS := Map_Quaterniond (parameters 0%nat) 3 in
    let v_WS := Map_Vector3d (parameters 1%nat) 0 in
    let t_SR_S := Map_Vector3d (parameters 2%nat) 0 in
    let clock_frequency := parameters 3%nat 0%nat in
    let t_WR_W := vadd t_WS_W (transformVector q_WS t_SR_S) in
    let v_WR :=
      vadd v_WS
           (mvec (mmul (skewSymmetric (angular_velocity_ this)) (toRotationMatrix q_WS))
                 t_SR_S) in
    match coordinate_ this with
    | None => Fatal "Coordinate not set!"
    | Some coordinate =>
        if negb (isZeroSetted coordinate) then Fatal "Coordinate zero not set!"
        else
          Returned {| t_WR_ECEF := convert coordinate t_WR_W ENU ECEF;
                      v_WR_ECEF := rotate coordinate v_WR ENU ECEF;
                      clock_frequency := clock_frequency;
                      body := Some {| q_WS := q_WS; t_SR_S := t_SR_S;
                                      coordinate := coordinate |} |}
    end.

Section Measurement.

Variable l : Locals.

Definition rho : R :=
  satelliteToReceiverDistance ext (sat_position (satellite_ this)) (t_WR_ECEF l).

Definition elevation : R :=
  satelliteElevation ext (sat_position (satellite_ this)) (t_WR_ECEF l).

Definition azimuth : R :=
  satelliteAzimuth ext (sat_position (satellite_ this)) (t_WR_ECEF l).

(** Lines 146-156. *)
Definition e : Vector3d :=
  vdiv (vsub (sat_position (satellite_ this)) (t_WR_ECEF l)) rho.

Definition range_rate : R :=
  let v_sat := sat_velocity (satellite_ this) in
  let p_sat := sat_position (satellite_ this) in
  let vs := vsub v_sat (v_WR_ECEF l) in
  vdot vs e + OMGE ext / CLIGHT ext *
    (vy v_sat * vx (t_WR_ECEF l) + vy p_sat * vx (v_WR_ECEF l) -
     vx v_sat * vy (t_WR_ECEF l) - vx p_sat * vy (v_WR_ECEF l)).

Definition doppler_estimate : R :=
  range_rate + clock_frequency l - sat_frequency (satellite_ this).

(** Lines 158-165. *)
Definition error : R := doppler (observation_ this) - doppler_estimate.

Definition weighted_error : R :=
  square_root_information_ (weighting_ this) * error.

(** Lines 170-175. *)
Definition J_t_ECEF : RowVector3d := RowVector3d_Zero.

Definition J_v_ECEF : RowVector3d :=
  rneg (transpose (vdiv (vsub (t_WR_ECEF l) (sat_position (satellite_ this))) rho)).

(** Lines 181-207. *)
Definition body_jacobians (b : BodyLocals) : BodyJacobians :=
  let J_t_W := RowVector3d_Zero in
  let R_ECEF_ENU := rotationMatrix (coordinate b) ENU ECEF in
  let J_v_W := rmul J_v_ECEF R_ECEF_ENU in
  let J_q_WS :=
    rmul (rmul J_v_W (skewSymmetric (angular_velocity_ this)))
         (mneg (skewSymmetric (mvec (toRotationMatrix (q_WS b)) (t_SR_S b)))) in
  let J_T_WS := Zero 6 in
  let J_T_WS := set_cols 0 (coeffs J_t_W) J_T_WS in
  let J_T_WS := set_cols 3 (coeffs J_q_WS) J_T_WS in
  let J_speed_and_bias := Zero 9 in
  let J_speed_and_bias := set_cols 0 (coeffs J_v_W) J_speed_and_bias in
  let J_t_SR_S :=
    rmul (rmul J_v_W (skewSymmetric (angular_velocity_ this)))
         (toRotationMatrix (q_WS b)) in
  {| J_T_WS := J_T_WS; J_speed_and_bias := J_speed_and_bias; J_t_SR_S := J_t_SR_S |}.

(** The three rows are declared without an initialiser and assigned only
    when [is_estimate_body_] holds.  The constructor sets
    [parameter_block_group_] to 2 together with [is_estimate_body_], so the
    second group never reads them unassigned; for an instance that no
    constructor builds the model reads zeros there. *)
Definition body_rows : BodyJacobians :=
  match body l with
  | Some b => body_jacobians b
  | None => {| J_T_WS := Zero 6; J_speed_and_bias := Zero 9;
               J_t_SR_S := RowVector3d_Zero |}
  end.

(** Line 210: minus the 1 x 1 identity. *)
Definition J_freq : RowVector := [- 1].

End Measurement.

(** One block of the output: [jacobians[k]] receives [raw] when it is not
    null, and only then [jacobians_minimal[k]] receives what [minimal]
    makes of the coefficients just written, when [jacobians_minimal] and
    [jacobians_minimal[k]] are not null. *)
Definition write_block (k : nat) (raw : RowVector) (minimal : Buffer -> RowVector)
    (J : PointerArray) (Jmin : option PointerArray)
  : PointerArray * option PointerArray :=
  match J k with
  | None => (J, Jmin)
  | Some buffer =>
      let J' := store_at k raw J in
      match Jmin with
      | None => (J', None)
      | Some M =>
          match M k with
          | None => (J', Some M)
          | Some _ => (J', Some (store_at k (minimal (store raw buffer)) M))
          end
      end
  end.

(** Lines 212-248. *)
Definition write_group1 (l : Locals) (J : PointerArray) (Jmin : option PointerArray)
  : PointerArray * option PointerArray :=
  let w := square_root_information_ (weighting_ this) in
  let '(J, Jmin) := write_block 0 (scale w (coeffs J_t_ECEF)) (load 3) J Jmin in
  let '(J, Jmin) := write_block 1 (scale w (coeffs (J_v_ECEF l))) (load 3) J Jmin in
  write_block 2 (scale w J_freq) (load 1) J Jmin.

(** Lines 249-303.  For the pose block the minimal Jacobian is the local
    [J0_minimal], not the raw coefficients. *)
Definition write_group2 (l : Locals) (parameters : nat -> Buffer)
    (J : PointerArray) (Jmin : option PointerArray)
  : PointerArray * option PointerArray :=
  let w := square_root_information_ (weighting_ this) in
  let rows := body_rows l in
  let J0_minimal := scale w (J_T_WS rows) in
  let J_lift := Map_RowMajor 6 7 (liftJacobian ext (parameters 0%nat)) in
  let '(J, Jmin) :=
    write_block 0 (row_times 7 J0_minimal J_lift) (fun _ => J0_minimal) J Jmin in
  let '(J, Jmin) := write_block 1 (scale w (J_speed_and_bias rows)) (load 9) J Jmin in
  let '(J, Jmin) := write_block 2 (scale w (coeffs (J_t_SR_S rows))) (load 3) J Jmin in
  write_block 3 (scale w J_freq) (load 1) J Jmin.

(** [DopplerError::EvaluateWithMinimalJacobians]. *)
Definition EvaluateWithMinimalJacobians (parameters : nat -> Buffer) (mem : Memory)
  : Outcome (bool * Memory) :=
  l <- decode parameters ;;
  let residuals' := store [weighted_error l] (residuals mem) in
  match jacobians mem with
  | None =>
      Returned (true, {| residuals := residuals';
                         jacobians := None;
                         jacobians_minimal := jacobians_minimal mem |})
  | Some J =>
      let Jmin := jacobians_minimal mem in
      let '(J, Jmin) :=
        if (parameter_block_group_ this =? 1)%Z then write_group1 l J Jmin
        else (J, Jmin) in
      let '(J, Jmin) :=
        if (parameter_block_group_ this =? 2)%Z then write_group2 l parameters J Jmin
        else (J, Jmin) in
      Returned (true, {| residuals := residuals';
                         jacobians := Some J;
                         jacobians_minimal := Jmin |})
  end.

(** [DopplerError::Evaluate]. *)
Definition Evaluate (parameters : nat -> Buffer) (residuals : Buffer)
    (jacobians : option PointerArray) : Outcome (bool * Memory) :=
  EvaluateWithMinimalJacobians parameters
    {| residuals := residuals; jacobians := jacobians; jacobians_minimal := None |}.

End Evaluation.

(** ** The specification's formulas *)

(** The unit line-of-sight vector: (satellite position - receiver
    position) / range. *)
Definition line_of_sight (p_sat p_rcv : Vector3d) (range : R) : Vector3d :=
  vdiv (vsub p_sat p_rcv) range.

(** Predicted Doppler: the range rate along the line of sight, the
    earth-rotation correction, plus the receiver clock-frequency bias, minus
    the satellite transmitted-frequency bias. *)
Definition predicted_doppler (ext : External) (sat : Satellite)
    (p_rcv v_rcv : Vector3d) (clock : R) : R :=
  let p_sat := sat_position sat in
  let v_sat := sat_velocity sat in
  let los := line_of_sight p_sat p_rcv (satelliteToReceiverDistance ext p_sat p_rcv) in
  vdot (vsub v_sat v_rcv) los
  + (OMGE ext / CLIGHT ext) *
    (vy v_sat * vx p_rcv + vy p_sat * vx v_rcv - vx v_sat * vy p_rcv - vx p_sat * vy v_rcv)
  + clock - sat_frequency sat.

(** Coefficient [j] of a 1 x 6 minimal row times the 6 x 7 row-major lift
    matrix stored at [lift]. *)
Definition lifted (minimal lift : Buffer) (j : nat) : R :=
  minimal 0%nat * lift j
  + minimal 1%nat * lift (7 + j)%nat
  + minimal 2%nat * lift (14 + j)%nat
  + minimal 3%nat * lift (21 + j)%nat
  + minimal 4%nat * lift (28 + j)%nat
  + minimal 5%nat * lift (35 + j)%nat.

(** Entry [i] of a nullable array of nullable pointers: null when the array
    is. *)
Definition entry (arr : option PointerArray) (i : nat) : option Buffer :=
  match arr with
  | None => None
  | Some a => a i
  end.

(** The direct instance for the same measurement, satellite and weighting
    as a body-referenced one: what [DopplerError<3, 3, 1>] holds for them. *)
Definition direct_counterpart (this : DopplerError) : DopplerError :=
  {| measurement_ := measurement_ this;
     satellite_ := satellite_ this;
     observation_ := observation_ this;
     is_estimate_body_ := false;
     parameter_block_group_ := 1;
     error_parameter_ := error_parameter_ this;
     weighting_ := weighting_ this;
     angular_velocity_ := angular_velocity_ this;
     coordinate_ := coordinate_ this |}.

(** The parameter blocks of the direct variant for the body of a
    body-referenced state: the body position converted to ECEF, the body
    velocity rotated to ECEF, and the same clock. *)
Definition direct_parameters (c : GeoCoordinate) (parameters : nat -> Buffer)
  : nat -> Buffer :=
  fun k =>
    match k with
    | 0%nat => of_list (coeffs (transpose
                 (convert c (Map_Vector3d (parameters 0%nat) 0) ENU ECEF)))
    | 1%nat => of_list (coeffs (transpose
                 (rotate c (Map_Vector3d (parameters 1%nat) 0) ENU ECEF)))
    | _ => of_list [parameters 3%nat 0%nat]
    end.

(** ** Predicates on the outputs *)

(** The pair of arrays after a step leaves block [i] alone. *)
Definition keeps (i : nat) (before after : PointerArray * option PointerArray) : Prop :=
  fst after i = None /\ entry (snd after) i = entry (snd before) i.

(** Block [k] of the arrays [J], [Jmin] is in [s] as it was. *)
Definition untouched (J : PointerArray) (Jmin : option PointerArray)
    (k : nat) (s : PointerArray * option PointerArray) : Prop :=
  fst s k = J k /\ entry (snd s) k = entry Jmin k.

(** Block [k] of the arrays [J], [Jmin] after the steps that led to
    [after]: its raw buffer, if any, has received [raw], and then its
    minimal buffer, if any, has received [minimal]. *)
Definition written (J : PointerArray) (Jmin : option PointerArray)
    (raw minimal : RowVector) (k : nat)
    (after : PointerArray * option PointerArray) : Prop :=
  fst after k = option_map (store raw) (J k) /\
  entry (snd after) k =
  match J k with
  | None => entry Jmin k
  | Some _ => option_map (store minimal) (entry Jmin k)
  end.

(** What a constructor call amounts to, by the tuple of block sizes. *)
Definition selects (Ns : list Z) (o : Outcome DopplerError) (ratio : Outcome R) : Prop :=
  match o with
  | Returned this =>
      (Ns = [3; 3; 1]%Z /\ is_estimate_body_ this = false /\
       parameter_block_group_ this = 1%Z) \/
      (Ns = [7; 9; 3; 1]%Z /\ is_estimate_body_ this = true /\
       parameter_block_group_ this = 2%Z)
  | Fatal msg =>
      Ns <> [3; 3; 1]%Z /\ Ns <> [7; 9; 3; 1]%Z /\
      msg = "DopplerError parameter blocks setup invalid!"%string
  | Thrown exn =>
      (Ns = [3; 3; 1]%Z \/ Ns = [7; 9; 3; 1]%Z) /\ ratio = Thrown exn
  end.

(** ** A concrete scene

    The scene of the specification's test: a satellite at (2e7, 0, 0) m
    moving at (0, 3000, 0) m/s, a receiver at (6.378e6, 0, 0) m at rest. *)

Module Scene.

(** Modelled from the spec: [gnss_common::satelliteToReceiverDistance],
    "Range = Euclidean distance(satellite position, receiver position)". *)
Definition euclidean_distance (p_sat p_rcv : Vector3d) : R :=
  sqrt (vdot (vsub p_sat p_rcv) (vsub p_sat p_rcv)).

(** A lift matrix: the identity on the translation, and a block that
    depends on the quaternion stored at offsets 3 to 6. *)
Definition lift (x : Buffer) : Buffer :=
  of_list [ 1; 0; 0; 0; 0; 0; 0;
            0; 1; 0; 0; 0; 0; 0;
            0; 0; 1; 0; 0; 0; 0;
            0; 0; 0; 2 * x 6%nat; 2 * x 5%nat; - (2 * x 4%nat); - (2 * x 3%nat);
            0; 0; 0; - (2 * x 5%nat); 2 * x 6%nat; 2 * x 3%nat; - (2 * x 4%nat);
            0; 0; 0; 2 * x 4%nat; - (2 * x 3%nat); 2 * x 6%nat; - (2 * x 5%nat) ].

Definition ext : External :=
  {| OMGE := 7.2921151467e-5;
     CLIGHT := 299792458;
     satelliteToReceiverDistance := euclidean_distance;
     satelliteElevation := fun _ _ => 0;
     satelliteAzimuth := fun _ _ => 0;
     liftJacobian := lift;
     angular_velocity_initial := V3 0 0 0 |}.

(** East-north-up at latitude 0, longitude 0: up is ECEF x, east is
    ECEF y, north is ECEF z. *)
Definition R_ECEF_ENU : Matrix3d :=
  M3 (RV3 0 0 1) (RV3 1 0 0) (RV3 0 1 0).

Definition origin : Vector3d := V3 6378000 0 0.

Definition geo (zero_set : bool) : GeoCoordinate :=
  {| isZeroSetted := zero_set;
     convert := fun v _ _ => vadd origin (mvec R_ECEF_ENU v);
     rotate := fun v _ _ => mvec R_ECEF_ENU v;
     rotationMatrix := fun _ _ => R_ECEF_ENU |}.

Definition satellite : Satellite :=
  {| getSystem := "G"%char;
     sat_position := V3 20000000 0 0;
     sat_velocity := V3 0 3000 0;
     sat_frequency := 0 |}.

Definition measurement : GnssMeasurement :=
  {| timestamp := 0;
     getSat := fun _ => satellite;
     getObs := fun _ => {| doppler := 0 |} |}.

Definition error_parameter (factor ratio : R) : GnssErrorParameter :=
  {| doppler_error_factor := factor;
     system_error_ratio := [("G"%char, ratio); ("R"%char, 5)] |}.

Definition weighting (factor ratio : R) : Weighting :=
  {| covariance_ := square factor * square ratio;
     information_ := / (square factor * square ratio);
     square_root_information_ := llt_matrixL (/ (square factor * square ratio));
     square_root_information_inverse_ :=
       / llt_matrixL (/ (square factor * square ratio)) |}.

(** The instance [DopplerError<3, 3, 1>] of the scene. *)
Definition direct : DopplerError :=
  {| measurement_ := measurement;
     satellite_ := satellite;
     observation_ := {| doppler := 0 |};
     is_estimate_body_ := false;
     parameter_block_group_ := 1;
     error_parameter_ := error_parameter 2 1;
     weighting_ := weighting 2 1;
     angular_velocity_ := V3 0 0 0;
     coordinate_ := None |}.

(** The instance [DopplerError<7, 9, 3, 1>] of the scene, as the
    constructor without angular velocity leaves it. *)
Definition body_referenced : DopplerError :=
  {| measurement_ := measurement;
     satellite_ := satellite;
     observation_ := {| doppler := 0 |};
     is_estimate_body_ := true;
     parameter_block_group_ := 2;
     error_parameter_ := error_parameter 2 1;
     weighting_ := weighting 2 1;
     angular_velocity_ := V3 0 0 0;
     coordinate_ := None |}.

(** Parameter blocks of the direct variant: receiver at rest at the
    origin of the local frame. *)
Definition parameters_direct : nat -> Buffer :=
  fun k =>
    match k with
    | 0%nat => of_list [6378000; 0; 0]
    | 1%nat => of_list [0; 0; 0]
    | _ => of_list [0]
    end.

(** Parameter blocks of the body-referenced variant: body at the local
    origin, identity rotation, no velocity, no lever arm. *)
Definition parameters_body : nat -> Buffer :=
  fun k =>
    match k with
    | 0%nat => of_list [0; 0; 0; 0; 0; 0; 1]
    | 1%nat => of_list [0; 0; 0; 0; 0; 0; 0; 0; 0]
    | 2%nat => of_list [0; 0; 0]
    | _ => of_list [0]
    end.

(** The body-referenced instance turning about its vertical axis, with a
    frame utility that has its origin. *)
Definition body_turning : DopplerError :=
  {| measurement_ := measurement;
     satellite_ := satellite;
     observation_ := {| doppler := 0 |};
     is_estimate_body_ := true;
     parameter_block_group_ := 2;
     error_parameter_ := error_parameter 2 1;
     weighting_ := weighting 2 1;
     angular_velocity_ := V3 0 0 1;
     coordinate_ := Some (geo true) |}.

(** Parameter blocks of the body-referenced variant: a body turned by
    half a turn about its vertical axis (quaternion x, y, z, w = 0, 0, 1, 0),
    moving, with the antenna one metre ahead. *)
Definition parameters_turned : nat -> Buffer :=
  fun k =>
    match k with
    | 0%nat => of_list [10; 20; 30; 0; 0; 1; 0]
    | 1%nat => of_list [1; 2; 3; 0; 0; 0; 0; 0; 0]
    | 2%nat => of_list [1; 0; 0]
    | _ => of_list [5]
    end.

(** The locals decoded from [parameters_direct]. *)
Definition locals_direct : Locals :=
  {| t_WR_ECEF := V3 6378000 0 0;
     v_WR_ECEF := V3 0 0 0;
     clock_frequency := 0;
     body := None |}.

(** Output buffers filled with a recognisable value. *)
Definition filled : Buffer := fun _ => 9.

Definition all_requested : Memory :=
  {| residuals := filled;
     jacobians := Some (fun _ => Some filled);
     jacobians_minimal := Some (fun _ => Some filled) |}.

(** Raw Jacobians refused for every block, minimal ones offered. *)
Definition only_minimal : Memory :=
  {| residuals := filled;
     jacobians := Some (fun _ => None);
     jacobians_minimal := Some (fun _ => Some filled) |}.

End Scene.

(** ** The rows of every block

    The row that each group assigns to block [k], with the row that the
    minimal buffer of the block receives; [None] for a block the group does
    not have. *)

Definition direct_rows (ext : External) (this : DopplerError) (l : Locals) (k : nat)
  : option (RowVector * RowVector) :=
  let w := square_root_information_ (weighting_ this) in
  match k with
  | 0%nat => Some (scale w (coeffs J_t_ECEF), scale w (coeffs J_t_ECEF))
  | 1%nat => Some (scale w (coeffs (J_v_ECEF ext this l)),
                   scale w (coeffs (J_v_ECEF ext this l)))
  | 2%nat => Some (scale w J_freq, scale w J_freq)
  | _ => None
  end.

Definition body_block_rows (ext : External) (this : DopplerError) (l : Locals)
    (parameters : nat -> Buffer) (k : nat) : option (RowVector * RowVector) :=
  let w := square_root_information_ (weighting_ this) in
  let rows := body_rows ext this l in
  match k with
  | 0%nat => Some (row_times 7 (scale w (J_T_WS rows))
                     (Map_RowMajor 6 7 (liftJacobian ext (parameters 0%nat))),
                   scale w (J_T_WS rows))
  | 1%nat => Some (scale w (J_speed_and_bias rows), scale w (J_speed_and_bias rows))
  | 2%nat => Some (scale w (coeffs (J_t_SR_S rows)), scale w (coeffs (J_t_SR_S rows)))
  | 3%nat => Some (scale w J_freq, scale w J_freq)
  | _ => None
  end.

(** What the arrays hold for block [k] after a group that assigns [rows]. *)
Definition block_outcome (J : PointerArray) (Jmin : option PointerArray)
    (rows : option (RowVector * RowVector)) (k : nat)
    (after : PointerArray * option PointerArray) : Prop :=
  match rows with
  | Some (raw, minimal) => written J Jmin raw minimal k after
  | None => untouched J Jmin k after
  end.

(** The size of block [k] for each group: the template arguments
    (3, 3, 1) of the first group and (7, 9, 3, 1) of the second. *)
Definition block_size (group : Z) (k : nat) : option nat :=
  if (group =? 1)%Z then nth_error [3; 3; 1]%nat k
  else if (group =? 2)%Z then nth_error [7; 9; 3; 1]%nat k
  else None.

(** Two states of an optional buffer that agree from offset [n] on, and on
    being null. *)
Definition same_from (n : nat) (before after : option Buffer) : Prop :=
  match before, after with
  | Some b, Some b' => forall j, (n <= j)%nat -> b' j = b j
  | None, None => True
  | _, _ => False
  end.

(** The doubles of the parameter blocks that [decode] reads: block and
    offset. *)
Definition reads (is_estimate_body : bool) (k j : nat) : bool :=
  if is_estimate_body then
    match k with
    | 0%nat => Nat.ltb j 7
    | 1%nat => Nat.ltb j 3
    | 2%nat => Nat.ltb j 3
    | 3%nat => Nat.eqb j 0
    | _ => false
    end
  else
    match k with
    | 0%nat => Nat.ltb j 3
    | 1%nat => Nat.ltb j 3
    | 2%nat => Nat.eqb j 0
    | _ => false
    end.

(** The parameter blocks of the direct variant holding the receiver state
    of decoded locals. *)
Definition effective_parameters (l : Locals) : nat -> Buffer :=
  fun k =>
    match k with
    | 0%nat => of_list (coeffs (transpose (t_WR_ECEF l)))
    | 1%nat => of_list (coeffs (transpose (v_WR_ECEF l)))
    | _ => of_list [clock_frequency l]
    end.

(** The locals with another receiver velocity, and with another clock. *)
Definition with_velocity (l : Locals) (v : Vector3d) : Locals :=
  {| t_WR_ECEF := t_WR_ECEF l; v_WR_ECEF := v;
     clock_frequency := clock_frequency l; body := body l |}.


(** The rows of a group have the sizes of its blocks, and the minimal row is
    the raw row except for the pose. *)
Definition rows_fit (group : Z) (rows : nat -> option (RowVector * RowVector)) : Prop :=
  forall k,
    match rows k with
    | Some (raw, minimal) =>
        block_size group k = Some (List.length raw) /\
        (List.length minimal <= List.length raw)%nat /\
        (minimal = raw \/ group = 2%Z /\ k = 0%nat)
    | None => block_size group k = None
    end.

(** ** Variations of the scene *)

Module Variation.


(** The direct parameter blocks of the scene with the receiver moving at
    (1, 2, 3) m/s, and stray doubles after the velocity. *)
Definition parameters_moving : nat -> Buffer :=
  fun k =>
    match k with
    | 1%nat => of_list [1; 2; 3; 77]
    | _ => Scene.parameters_direct k
    end.

(** The turned body of the scene with other biases in the velocity-and-bias
    block. *)
Definition parameters_biased : nat -> Buffer :=
  fun k =>
    match k with
    | 1%nat => of_list [1; 2; 3; 4; 5; 6; 7; 8; 9]
    | _ => Scene.parameters_turned k
    end.

End Variation.

(** ** Node options: [gici/utility/node_option_handle.h] *)

Module NodeOptionHandle.

Inductive NodeType : Type := Streamer | Formator | Estimator.

(** [NodeBase], without the YAML node it keeps a copy of. *)
Record NodeBase : Type := {
  node_type : NodeType;
  tag : string;
  type : string;
  input_tags : list string;
  output_tags : list string;
  valid : bool
}.

(** [std::vector::push_back]. *)
Definition push_back {A : Type} (v : list A) (x : A) : list A := v ++ [x].

(** [NodeBase::tags]: two range-based loops that push every tag onto a
    vector that starts empty. *)
Definition tags (n : NodeBase) : list string :=
  let tags := [] in
  let tags := fold_left push_back (input_tags n) tags in
  let tags := fold_left push_back (output_tags n) tags in
  tags.

End NodeOptionHandle.

(** ** Signal handles: [src/utility/signal_handle.cpp] *)

Module SignalHandle.

Inductive Severity : Type := INFO | FATAL.

(** The lines logged so far. *)
Definition Log : Type := list (Severity * string).

(** [handlePipe]: logs and returns. *)
Definition handlePipe (sig : Z) (log : Log) : Outcome Log :=
  Returned (log ++ [(INFO, "Received a pipe exception!"%string)]).

(** [handleSegv]: the fatal log ends the process, [exit] is not reached. *)
Definition handleSegv (sig : Z) (log : Log) : Outcome Log :=
  Fatal "Received a segment fault exception!".

(** What [sa_handler] can hold: one of the two handlers of the file, or
    what was there before ([SIG_DFL], [SIG_IGN], a handler of someone
    else). *)
Inductive Handler : Type :=
| Pipe
| Segv
| Foreign (h : Z).

(** The members of [struct sigaction] that the file assigns; [sa_mask] is
    a set of signals, empty after [sigemptyset]. *)
Record sigaction_t : Type := {
  sa_handler : Handler;
  sa_mask : list Z;
  sa_flags : Z
}.

(** The action registered for each signal of the process. *)
Definition Dispositions : Type := Z -> sigaction_t.

(** [sigaction(signum, &act, NULL)] for a signal that can be caught. *)
Definition sigaction (signum : Z) (act : sigaction_t) (d : Dispositions) : Dispositions :=
  fun s => if (s =? signum)%Z then act else d s.

Section Initialize.

(** The numbers of the two signals, from [<signal.h>]. *)
Variables SIGPIPE SIGSEGV : Z.

(** [initializeSignalHandles]. *)
Definition initializeSignalHandles (d : Dispositions) : Dispositions :=
  let sa_pipe := {| sa_handler := Pipe; sa_mask := []; sa_flags := 0 |} in
  let d := sigaction SIGPIPE sa_pipe d in
  let sa_segv := {| sa_handler := Segv; sa_mask := []; sa_flags := 0 |} in
  sigaction SIGSEGV sa_segv d.

(** The handler that runs when [sig] is raised, for the two handlers of
    the file. *)
Definition run (h : Handler) (sig : Z) (log : Log) : option (Outcome Log) :=
  match h with
  | Pipe => Some (handlePipe sig log)
  | Segv => Some (handleSegv sig log)
  | Foreign _ => None
  end.

End Initialize.

End SignalHandle.

(** * Properties *)

(** ** The scene is what the constructors build *)

Example direct_constructed :
  DopplerError_ctor Scene.ext [3; 3; 1]%Z Scene.measurement 0%nat
    (Scene.error_parameter 2 1) = Returned Scene.direct.
Proof. reflexivity. Qed.

Example body_referenced_constructed :
  DopplerError_ctor Scene.ext [7; 9; 3; 1]%Z Scene.measurement 0%nat
    (Scene.error_parameter 2 1) = Returned Scene.body_referenced.
Proof. reflexivity. Qed.

Example unknown_system_throws :
  setInformation
    {| getSystem := "C"%char; sat_position := V3 0 0 0; sat_velocity := V3 0 0 0;
       sat_frequency := 0 |}
    (Scene.error_parameter 2 1) = Thrown "std::out_of_range".
Proof. reflexivity. Qed.

(** ** Memory *)

Lemma store_inside (vals : list R) (b : Buffer) (j : nat) :
  (j < List.length vals)%nat -> store vals b j = nth j vals 0.
Proof.
  intro Hj. unfold store. apply nth_indep. exact Hj.
Qed.

Lemma store_outside (vals : list R) (b : Buffer) (j : nat) :
  (List.length vals <= j)%nat -> store vals b j = b j.
Proof.
  intro Hj. unfold store. apply nth_overflow. exact Hj.
Qed.

Lemma load_store (vals : list R) (b : Buffer) :
  load (List.length vals) (store vals b) = vals.
Proof.
  unfold load.
  apply nth_ext with (d := 0) (d' := 0).
  - rewrite length_map, length_seq. reflexivity.
  - intros n Hn. rewrite length_map, length_seq in Hn.
    rewrite (nth_indep _ 0 (store vals b 0%nat)) by (rewrite length_map, length_seq; exact Hn).
    rewrite map_nth, seq_nth by exact Hn.
    simpl. apply store_inside. exact Hn.
Qed.

Lemma store_at_same (k : nat) (vals : list R) (arr : PointerArray) :
  store_at k vals arr k = option_map (store vals) (arr k).
Proof. unfold store_at. rewrite Nat.eqb_refl. reflexivity. Qed.

Lemma store_at_other (k i : nat) (vals : list R) (arr : PointerArray) :
  i <> k -> store_at k vals arr i = arr i.
Proof.
  intro Hik. unfold store_at.
  destruct (Nat.eqb i k) eqn:E; [apply Nat.eqb_eq in E; contradiction | reflexivity].
Qed.

(** ** One block of the output *)

Section WriteBlock.

Variables (k : nat) (raw : RowVector) (minimal : Buffer -> RowVector).
Variables (J : PointerArray) (Jmin : option PointerArray).

Lemma write_block_null :
  J k = None -> write_block k raw minimal J Jmin = (J, Jmin).
Proof. intro H. unfold write_block. rewrite H. reflexivity. Qed.

Lemma write_block_raw_other (i : nat) :
  i <> k -> fst (write_block k raw minimal J Jmin) i = J i.
Proof.
  intro Hik. unfold write_block.
  destruct (J k) as [b|]; [|reflexivity].
  destruct Jmin as [M|]; [destruct (M k)|]; simpl; apply store_at_other; exact Hik.
Qed.

Lemma write_block_raw_same :
  fst (write_block k raw minimal J Jmin) k = option_map (store raw) (J k).
Proof.
  unfold write_block.
  destruct (J k) as [b|] eqn:E; [|simpl; rewrite E; reflexivity].
  destruct Jmin as [M|]; [destruct (M k)|]; simpl; rewrite store_at_same, E; reflexivity.
Qed.

Lemma write_block_minimal_other (i : nat) :
  i <> k -> entry (snd (write_block k raw minimal J Jmin)) i = entry Jmin i.
Proof.
  intro Hik. unfold write_block.
  destruct (J k) as [b|]; [|reflexivity].
  destruct Jmin as [M|]; [|reflexivity].
  destruct (M k); simpl; [apply store_at_other; exact Hik | reflexivity].
Qed.

Lemma write_block_minimal_same :
  entry (snd (write_block k raw minimal J Jmin)) k =
  match J k with
  | None => entry Jmin k
  | Some b => option_map (store (minimal (store raw b))) (entry Jmin k)
  end.
Proof.
  unfold write_block.
  destruct (J k) as [b|]; [|reflexivity].
  destruct Jmin as [M|]; [|reflexivity].
  destruct (M k) eqn:E; simpl; [rewrite store_at_same, E | rewrite E]; reflexivity.
Qed.

Lemma write_block_minimal_null :
  snd (write_block k raw minimal J Jmin) = None <-> Jmin = None.
Proof.
  unfold write_block.
  destruct (J k) as [b|]; [|reflexivity].
  destruct Jmin as [M|]; [|simpl; tauto].
  destruct (M k); simpl; split; discriminate.
Qed.

End WriteBlock.

(** ** Frame of the Jacobian outputs *)

Lemma write_block_frame (k : nat) (raw : RowVector) (minimal : Buffer -> RowVector)
    (J : PointerArray) (Jmin : option PointerArray) (i : nat) :
  J i = None ->
  fst (write_block k raw minimal J Jmin) i = None /\
  entry (snd (write_block k raw minimal J Jmin)) i = entry Jmin i.
Proof.
  intro Hi.
  destruct (Nat.eq_dec i k) as [->|Hik].
  - rewrite write_block_null by exact Hi. simpl. auto.
  - rewrite write_block_raw_other, write_block_minimal_other by exact Hik. auto.
Qed.

Lemma keeps_write_block (k : nat) (raw : RowVector) (minimal : Buffer -> RowVector)
    (i : nat) (start mid : PointerArray * option PointerArray) :
  keeps i start mid ->
  keeps i start (write_block k raw minimal (fst mid) (snd mid)).
Proof.
  intros [Hraw Hmin].
  destruct (write_block_frame k raw minimal (fst mid) (snd mid) i Hraw) as [H1 H2].
  split; [exact H1 | rewrite H2; exact Hmin].
Qed.

Lemma keeps_refl (i : nat) (J : PointerArray) (Jmin : option PointerArray) :
  J i = None -> keeps i (J, Jmin) (J, Jmin).
Proof. intro H. split; [exact H | reflexivity]. Qed.

Section Frame.

Variable ext : External.
Variable this : DopplerError.

Let w : R := square_root_information_ (weighting_ this).

Lemma write_group1_keeps (l : Locals) (i : nat)
    (J : PointerArray) (Jmin : option PointerArray) :
  J i = None -> keeps i (J, Jmin) (write_group1 ext this l J Jmin).
Proof.
  intro Hi. unfold write_group1.
  pose proof (keeps_refl i J Jmin Hi) as H0.
  apply (keeps_write_block 0 (scale w (coeffs J_t_ECEF)) (load 3)) in H0.
  simpl fst in H0; simpl snd in H0.
  destruct (write_block 0 _ _ J Jmin) as [J1 M1].
  apply (keeps_write_block 1 (scale w (coeffs (J_v_ECEF ext this l))) (load 3)) in H0.
  simpl fst in H0; simpl snd in H0.
  destruct (write_block 1 _ _ J1 M1) as [J2 M2].
  apply (keeps_write_block 2 (scale w J_freq) (load 1)) in H0.
  exact H0.
Qed.

Lemma write_group2_keeps (l : Locals) (parameters : nat -> Buffer) (i : nat)
    (J : PointerArray) (Jmin : option PointerArray) :
  J i = None -> keeps i (J, Jmin) (write_group2 ext this l parameters J Jmin).
Proof.
  intro Hi. unfold write_group2.
  pose proof (keeps_refl i J Jmin Hi) as H0.
  set (rows := body_rows ext this l).
  set (J0_minimal := scale _ (J_T_WS rows)).
  apply (keeps_write_block 0
           (row_times 7 J0_minimal (Map_RowMajor 6 7 (liftJacobian ext (parameters 0%nat))))
           (fun _ => J0_minimal)) in H0.
  simpl fst in H0; simpl snd in H0.
  destruct (write_block 0 _ _ J Jmin) as [J1 M1].
  apply (keeps_write_block 1 (scale w (J_speed_and_bias rows)) (load 9)) in H0.
  simpl fst in H0; simpl snd in H0.
  destruct (write_block 1 _ _ J1 M1) as [J2 M2].
  apply (keeps_write_block 2 (scale w (coeffs (J_t_SR_S rows))) (load 3)) in H0.
  simpl fst in H0; simpl snd in H0.
  destruct (write_block 2 _ _ J2 M2) as [J3 M3].
  apply (keeps_write_block 3 (scale w J_freq) (load 1)) in H0.
  exact H0.
Qed.

(** The outcome of an evaluation, once the locals are decoded. *)
Lemma evaluate_decoded (parameters : nat -> Buffer) (mem : Memory) (l : Locals) :
  decode this parameters = Returned l ->
  exists mem',
    EvaluateWithMinimalJacobians ext this parameters mem = Returned (true, mem') /\
    residuals mem' = store [weighted_error ext this l] (residuals mem) /\
    match jacobians mem with
    | None => jacobians mem' = None /\ jacobians_minimal mem' = jacobians_minimal mem
    | Some J =>
        let s1 := if (parameter_block_group_ this =? 1)%Z
                  then write_group1 ext this l J (jacobians_minimal mem)
                  else (J, jacobians_minimal mem) in
        let s2 := if (parameter_block_group_ this =? 2)%Z
                  then write_group2 ext this l parameters (fst s1) (snd s1)
                  else s1 in
        jacobians mem' = Some (fst s2) /\ jacobians_minimal mem' = snd s2
    end.
Proof.
  intro Hl. unfold EvaluateWithMinimalJacobians. rewrite Hl. simpl bind.
  destruct (jacobians mem) as [J|].
  - destruct (parameter_block_group_ this =? 1)%Z.
    + destruct (write_group1 ext this l J (jacobians_minimal mem)) as [J1 M1].
      destruct (parameter_block_group_ this =? 2)%Z.
      * simpl fst; simpl snd.
        destruct (write_group2 ext this l parameters J1 M1) as [J2 M2].
        eexists; repeat split.
      * eexists; repeat split.
    + destruct (parameter_block_group_ this =? 2)%Z.
      * simpl fst; simpl snd.
        destruct (write_group2 ext this l parameters J (jacobians_minimal mem)) as [J2 M2].
        eexists; repeat split.
      * eexists; repeat split.
  - eexists; repeat split.
Qed.

(** A call that returns has decoded its locals. *)
Lemma evaluate_returned (parameters : nat -> Buffer) (mem : Memory) (r : bool * Memory) :
  EvaluateWithMinimalJacobians ext this parameters mem = Returned r ->
  exists l, decode this parameters = Returned l.
Proof.
  unfold EvaluateWithMinimalJacobians.
  destruct (decode this parameters) as [m|x|l]; simpl; try discriminate.
  intros _. exists l. reflexivity.
Qed.

End Frame.

(** ** Return value *)

(** C10: [Evaluate] is [EvaluateWithMinimalJacobians] called with a null
    [jacobians_minimal], and each of the two either ends the process with a
    fatal log or returns [true]: neither throws, neither returns [false]. *)
Theorem evaluate_returns_true (ext : External) (this : DopplerError)
    (parameters : nat -> Buffer) :
  (forall residuals jacobians,
     Evaluate ext this parameters residuals jacobians =
     EvaluateWithMinimalJacobians ext this parameters
       {| residuals := residuals; jacobians := jacobians; jacobians_minimal := None |}) /\
  (forall mem,
     match EvaluateWithMinimalJacobians ext this parameters mem with
     | Returned (b, _) => b = true
     | Fatal _ => True
     | Thrown _ => False
     end) /\
  (forall residuals jacobians,
     match Evaluate ext this parameters residuals jacobians with
     | Returned (b, _) => b = true
     | Fatal _ => True
     | Thrown _ => False
     end).
Proof.
  assert (H : forall mem,
             match EvaluateWithMinimalJacobians ext this parameters mem with
             | Returned (b, _) => b = true
             | Fatal _ => True
             | Thrown _ => False
             end).
  { intro mem.
    destruct (decode this parameters) as [m|x|l] eqn:Hl.
    - unfold EvaluateWithMinimalJacobians. rewrite Hl. exact I.
    - unfold decode in Hl.
      destruct (negb (is_estimate_body_ this)); [discriminate|].
      destruct (coordinate_ this) as [c|]; [|discriminate].
      destruct (negb (isZeroSetted c)); discriminate.
    - destruct (evaluate_decoded ext this parameters mem l Hl) as [mem' [E _]].
      rewrite E. reflexivity. }
  split; [reflexivity|].
  split; [exact H|].
  intros residuals jacobians. unfold Evaluate. apply H.
Qed.

(** C9: a block whose raw Jacobian is not requested ([jacobians] null, or
    [jacobians[i]] null) is left alone: its raw pointer stays null and its
    minimal buffer, null or not, is exactly what it was before the call. *)
Theorem unrequested_block_unchanged (ext : External) (this : DopplerError)
    (parameters : nat -> Buffer) (mem mem' : Memory) (b : bool) (i : nat) :
  EvaluateWithMinimalJacobians ext this parameters mem = Returned (b, mem') ->
  entry (jacobians mem) i = None ->
  entry (jacobians mem') i = None /\
  entry (jacobians_minimal mem') i = entry (jacobians_minimal mem) i.
Proof.
  intros Hrun Hi.
  destruct (evaluate_returned ext this parameters mem _ Hrun) as [l Hl].
  destruct (evaluate_decoded ext this parameters mem l Hl) as [mem2 [E [_ Hout]]].
  rewrite E in Hrun. injection Hrun as _ <-.
  destruct (jacobians mem) as [J|].
  - simpl in Hi. cbv zeta in Hout. destruct Hout as [HJ HM].
    rewrite HJ, HM. simpl entry at 1.
    assert (H1 : keeps i (J, jacobians_minimal mem)
                   (if (parameter_block_group_ this =? 1)%Z
                    then write_group1 ext this l J (jacobians_minimal mem)
                    else (J, jacobians_minimal mem))).
    { destruct (parameter_block_group_ this =? 1)%Z;
        [apply write_group1_keeps | apply keeps_refl]; exact Hi. }
    destruct (if (parameter_block_group_ this =? 1)%Z
              then write_group1 ext this l J (jacobians_minimal mem)
              else (J, jacobians_minimal mem)) as [J1 M1].
    destruct H1 as [H1a H1b]. simpl in H1a, H1b.
    simpl fst; simpl snd.
    destruct (parameter_block_group_ this =? 2)%Z.
    + destruct (write_group2_keeps ext this l parameters i J1 M1 H1a) as [H2a H2b].
      simpl snd in H2b. split; [exact H2a | rewrite H2b; exact H1b].
    + split; [exact H1a | exact H1b].
  - destruct Hout as [HJ HM]. rewrite HJ, HM. split; reflexivity.
Qed.

(** The direct instance, asked for minimal Jacobians only: nothing is
    written to them. *)
Lemma unrequested_block_unchanged_witness :
  exists mem',
    EvaluateWithMinimalJacobians Scene.ext Scene.direct Scene.parameters_direct
      Scene.only_minimal = Returned (true, mem') /\
    entry (jacobians mem') 1 = None /\
    entry (jacobians_minimal mem') 1 = Some Scene.filled.
Proof.
  eexists. split; [reflexivity|].
  apply (unrequested_block_unchanged Scene.ext Scene.direct Scene.parameters_direct
           Scene.only_minimal _ true 1%nat); reflexivity.
Defined.

(** ** Selection of the variant at construction *)

Lemma check_parameter_blocks_direct :
  check_parameter_blocks [3; 3; 1]%Z = Returned (false, 1%Z).
Proof. reflexivity. Qed.

Lemma check_parameter_blocks_body :
  check_parameter_blocks [7; 9; 3; 1]%Z = Returned (true, 2%Z).
Proof. reflexivity. Qed.

(** A list of exactly [n] block sizes, from its length and entries. *)
Lemma three_blocks (Ns : list Z) (a b c : Z) :
  kNumParameterBlocks Ns = 3%Z ->
  GetDim Ns 0 = a -> GetDim Ns 1 = b -> GetDim Ns 2 = c ->
  Ns = [a; b; c].
Proof.
  unfold kNumParameterBlocks, GetDim.
  destruct Ns as [|x [|y [|z [|t rest]]]]; simpl; intros Hn; try lia.
  intros <- <- <-. reflexivity.
Qed.

Lemma four_blocks (Ns : list Z) (a b c d : Z) :
  kNumParameterBlocks Ns = 4%Z ->
  GetDim Ns 0 = a -> GetDim Ns 1 = b -> GetDim Ns 2 = c -> GetDim Ns 3 = d ->
  Ns = [a; b; c; d].
Proof.
  unfold kNumParameterBlocks, GetDim.
  destruct Ns as [|x [|y [|z [|t [|u rest]]]]]; simpl; intros Hn; try lia.
  intros <- <- <- <-. reflexivity.
Qed.

Lemma check_parameter_blocks_other (Ns : list Z) :
  Ns <> [3; 3; 1]%Z -> Ns <> [7; 9; 3; 1]%Z ->
  check_parameter_blocks Ns = Fatal "DopplerError parameter blocks setup invalid!".
Proof.
  intros HA HB. unfold check_parameter_blocks.
  destruct ((kNumParameterBlocks Ns =? 3) && (GetDim Ns 0 =? 3) && (GetDim Ns 1 =? 3)
            && (GetDim Ns 2 =? 1))%Z eqn:EA.
  - exfalso. apply HA.
    repeat (apply andb_prop in EA; destruct EA as [EA ?]).
    apply three_blocks; apply Z.eqb_eq; assumption.
  - destruct ((kNumParameterBlocks Ns =? 4) && (GetDim Ns 0 =? 7) && (GetDim Ns 1 =? 9)
              && (GetDim Ns 2 =? 3) && (GetDim Ns 3 =? 1))%Z eqn:EB; [|reflexivity].
    exfalso. apply HB.
    repeat (apply andb_prop in EB; destruct EB as [EB ?]).
    apply four_blocks; apply Z.eqb_eq; assumption.
Qed.

(** [at] throws or returns; it never logs. *)
Lemma map_at_not_fatal (m : list (ascii * R)) (key : ascii) (msg : string) :
  map_at m key <> Fatal msg.
Proof.
  induction m as [|[k v] rest IH]; simpl; [discriminate|].
  destruct (Ascii.eqb k key); [discriminate | exact IH].
Qed.

(** C2: whatever the measurement and the error parameters, both
    constructors end the process with the fatal configuration error exactly
    when the tuple of block sizes is neither (3, 3, 1) nor (7, 9, 3, 1); an
    instance built from (3, 3, 1) is the direct variant (group 1, no body),
    one built from (7, 9, 3, 1) the body-referenced variant (group 2).  With
    one of the two tuples the only way not to get the instance is the
    exception of [at] for a satellite system without an error ratio. *)
Theorem constructor_selects_variant (ext : External) (Ns : list Z)
    (measurement : GnssMeasurement) (index : GnssMeasurementIndex)
    (error_parameter : GnssErrorParameter) :
  selects Ns (DopplerError_ctor ext Ns measurement index error_parameter)
    (map_at (system_error_ratio error_parameter) (getSystem (getSat measurement index))) /\
  (forall angular_velocity,
     selects Ns
       (DopplerError_ctor_angular ext Ns measurement index error_parameter angular_velocity)
       (map_at (system_error_ratio error_parameter)
               (getSystem (getSat measurement index)))).
Proof.
  set (ratio := map_at (system_error_ratio error_parameter)
                       (getSystem (getSat measurement index))).
  assert (H : selects Ns (DopplerError_ctor ext Ns measurement index error_parameter) ratio).
  { unfold DopplerError_ctor, setInformation. fold ratio.
    destruct (list_eq_dec Z.eq_dec Ns [3; 3; 1]%Z) as [->|HA].
    - rewrite check_parameter_blocks_direct.
      destruct ratio as [m|x|r] eqn:Hr; simpl.
      + exfalso. exact (map_at_not_fatal _ _ _ Hr).
      + split; [left|]; reflexivity.
      + left. auto.
    - destruct (list_eq_dec Z.eq_dec Ns [7; 9; 3; 1]%Z) as [->|HB].
      + rewrite check_parameter_blocks_body.
        destruct ratio as [m|x|r] eqn:Hr; simpl.
        * exfalso. exact (map_at_not_fatal _ _ _ Hr).
        * split; [right|]; reflexivity.
        * right. auto.
      + rewrite check_parameter_blocks_other by assumption. simpl. auto. }
  split; [exact H|].
  intro angular_velocity. unfold DopplerError_ctor_angular.
  destruct (DopplerError_ctor ext Ns measurement index error_parameter) as [m|x|this];
    simpl; exact H.
Qed.

(** ** The residual *)

Lemma decode_direct (this : DopplerError) (parameters : nat -> Buffer) :
  is_estimate_body_ this = false ->
  decode this parameters =
  Returned {| t_WR_ECEF := Map_Vector3d (parameters 0%nat) 0;
              v_WR_ECEF := Map_Vector3d (parameters 1%nat) 0;
              clock_frequency := parameters 2%nat 0%nat;
              body := None |}.
Proof. intro H. unfold decode. rewrite H. reflexivity. Qed.

Example decode_scene_direct :
  decode Scene.direct Scene.parameters_direct = Returned Scene.locals_direct.
Proof. reflexivity. Qed.

(** The scene by hand: the satellite moves across the line of sight, so
    the range rate is the earth-rotation correction alone. *)
Example scene_doppler_estimate :
  doppler_estimate Scene.ext Scene.direct Scene.locals_direct =
  7.2921151467e-5 / 299792458 * (3000 * 6378000).
Proof.
  unfold doppler_estimate, range_rate, e, rho, vdot, vsub, vdiv. simpl.
  unfold Rdiv. ring.
Qed.

(** C1: once the receiver position, velocity and clock are decoded, the
    unweighted residual is the observed Doppler minus the predicted Doppler
    of the specification, and the call returns after writing that residual,
    times the square-root information, to [residuals[0]]. *)
Theorem residual_is_observed_minus_predicted (ext : External) (this : DopplerError)
    (parameters : nat -> Buffer) (mem : Memory) (l : Locals) :
  decode this parameters = Returned l ->
  let predicted :=
    predicted_doppler ext (satellite_ this) (t_WR_ECEF l) (v_WR_ECEF l)
      (clock_frequency l) in
  doppler_estimate ext this l = predicted /\
  error ext this l = doppler (observation_ this) - predicted /\
  exists mem',
    EvaluateWithMinimalJacobians ext this parameters mem = Returned (true, mem') /\
    residuals mem' 0%nat =
    square_root_information_ (weighting_ this) * (doppler (observation_ this) - predicted).
Proof.
  intros Hl predicted.
  assert (Hp : doppler_estimate ext this l = predicted).
  { unfold predicted, predicted_doppler, doppler_estimate, range_rate, e, rho,
      line_of_sight.
    cbv zeta. reflexivity. }
  split; [exact Hp|].
  split; [unfold error; rewrite Hp; reflexivity|].
  destruct (evaluate_decoded ext this parameters mem l Hl) as [mem' [E [Hres _]]].
  exists mem'. split; [exact E|].
  rewrite Hres. unfold store, weighted_error, error. simpl nth. rewrite Hp. reflexivity.
Qed.

(** The scene's direct instance: the residual written is the weighted
    difference between the observation (0) and the prediction for the
    receiver at rest. *)
Lemma residual_is_observed_minus_predicted_witness :
  exists mem',
    EvaluateWithMinimalJacobians Scene.ext Scene.direct Scene.parameters_direct
      Scene.all_requested = Returned (true, mem') /\
    residuals mem' 0%nat =
    square_root_information_ (Scene.weighting 2 1) *
    (0 - predicted_doppler Scene.ext Scene.satellite (V3 6378000 0 0) (V3 0 0 0) 0).
Proof.
  exact (proj2 (proj2 (residual_is_observed_minus_predicted Scene.ext Scene.direct
                         Scene.parameters_direct Scene.all_requested Scene.locals_direct
                         eq_refl))).
Defined.

(** ** The velocity Jacobian *)

(** C3 as amended: the Jacobian of the receiver ECEF velocity before
    weighting, minus the transpose of (receiver position - satellite
    position) / range, is plus the transpose of the unit line-of-sight vector
    e = (satellite position - receiver position) / range. *)
Theorem velocity_jacobian_is_line_of_sight (ext : External) (this : DopplerError)
    (l : Locals) :
  J_v_ECEF ext this l =
  transpose (line_of_sight (sat_position (satellite_ this)) (t_WR_ECEF l)
               (satelliteToReceiverDistance ext (sat_position (satellite_ this))
                  (t_WR_ECEF l))).
Proof.
  unfold J_v_ECEF, line_of_sight, rho, transpose, rneg, vdiv, vsub. simpl.
  f_equal; unfold Rdiv; ring.
Qed.

Lemma scene_range_positive :
  0 < satelliteToReceiverDistance Scene.ext (V3 20000000 0 0) (V3 6378000 0 0).
Proof.
  simpl. unfold Scene.euclidean_distance, vdot, vsub. simpl.
  apply sqrt_lt_R0. lra.
Qed.

(** C3 as stated fails: in the scene the Jacobian of the velocity is not
    minus the transpose of the unit line-of-sight vector. *)
Lemma velocity_jacobian_not_minus_line_of_sight :
  J_v_ECEF Scene.ext Scene.direct Scene.locals_direct <>
  rneg (transpose (line_of_sight (sat_position Scene.satellite) (V3 6378000 0 0)
                     (satelliteToReceiverDistance Scene.ext
                        (sat_position Scene.satellite) (V3 6378000 0 0)))).
Proof.
  intro H. apply (f_equal rx) in H.
  pose proof scene_range_positive as Hpos.
  apply Rinv_0_lt_compat in Hpos.
  unfold J_v_ECEF, line_of_sight, rho, transpose, rneg, vdiv, vsub in H.
  simpl in H. unfold Rdiv in H.
  simpl in Hpos.
  set (x := / Scene.euclidean_distance (V3 20000000 0 0) (V3 6378000 0 0)) in *.
  lra.
Qed.

(** ** Preconditions of the body-referenced variant *)

(** C4 as amended: an evaluation of the body-referenced variant ends the
    process when no frame utility is attached ("Coordinate not set!") or
    when the attached one has no origin ("Coordinate zero not set!");
    otherwise it returns [true].  The angular velocity takes no part in the
    decision: the statement holds for every value of [angular_velocity_],
    assigned or not. *)
Theorem body_evaluation_preconditions (ext : External) (this : DopplerError)
    (parameters : nat -> Buffer) (mem : Memory) :
  is_estimate_body_ this = true ->
  match coordinate_ this with
  | None =>
      EvaluateWithMinimalJacobians ext this parameters mem = Fatal "Coordinate not set!"
  | Some c =>
      if isZeroSetted c
      then exists mem',
             EvaluateWithMinimalJacobians ext this parameters mem = Returned (true, mem')
      else EvaluateWithMinimalJacobians ext this parameters mem =
           Fatal "Coordinate zero not set!"
  end.
Proof.
  intro Hb.
  destruct (coordinate_ this) as [c|] eqn:Hc.
  - destruct (isZeroSetted c) eqn:Hz.
    + assert (Hl : exists l, decode this parameters = Returned l).
      { unfold decode. rewrite Hb, Hc, Hz. simpl. eexists. reflexivity. }
      destruct Hl as [l Hl].
      destruct (evaluate_decoded ext this parameters mem l Hl) as [mem' [E _]].
      exists mem'. exact E.
    + unfold EvaluateWithMinimalJacobians, decode. rewrite Hb, Hc, Hz. reflexivity.
  - unfold EvaluateWithMinimalJacobians, decode. rewrite Hb, Hc. reflexivity.
Qed.

(** The scene's body-referenced instance with a frame utility that has
    its origin: the evaluation returns. *)
Lemma body_evaluation_preconditions_witness :
  exists mem',
    EvaluateWithMinimalJacobians Scene.ext
      (setCoordinate Scene.body_referenced (Scene.geo true))
      Scene.parameters_body Scene.all_requested = Returned (true, mem').
Proof.
  exact (body_evaluation_preconditions Scene.ext
           (setCoordinate Scene.body_referenced (Scene.geo true))
           Scene.parameters_body Scene.all_requested eq_refl).
Defined.

(** C4 as stated fails: the instance that the constructor without angular
    velocity builds, so one whose angular velocity was never set, is
    evaluated to the end once the frame utility has its origin. *)
Lemma unset_angular_velocity_not_fatal :
  DopplerError_ctor Scene.ext [7; 9; 3; 1]%Z Scene.measurement 0%nat
    (Scene.error_parameter 2 1) = Returned Scene.body_referenced /\
  (exists mem',
     EvaluateWithMinimalJacobians Scene.ext
       (setCoordinate Scene.body_referenced (Scene.geo true))
       Scene.parameters_body Scene.all_requested = Returned (true, mem')) /\
  (forall msg,
     EvaluateWithMinimalJacobians Scene.ext
       (setCoordinate Scene.body_referenced (Scene.geo true))
       Scene.parameters_body Scene.all_requested <> Fatal msg).
Proof.
  split; [reflexivity|].
  split.
  - eexists. reflexivity.
  - intros msg H. discriminate H.
Qed.

(** ** The weighting *)

Lemma sqrt_inv_square (x : R) : 0 < x -> sqrt (/ (x * x)) = 1 / x.
Proof.
  intro Hx.
  replace (/ (x * x)) with ((1 / x) * (1 / x)) by (field; lra).
  apply sqrt_square.
  apply Rlt_le. unfold Rdiv. rewrite Rmult_1_l. apply Rinv_0_lt_compat. exact Hx.
Qed.

Lemma setInformation_weight (sat : Satellite) (ep : GnssErrorParameter) (r : R) :
  map_at (system_error_ratio ep) (getSystem sat) = Returned r ->
  setInformation sat ep =
  Returned {| covariance_ := square (doppler_error_factor ep) * square r;
              information_ := / (square (doppler_error_factor ep) * square r);
              square_root_information_ :=
                llt_matrixL (/ (square (doppler_error_factor ep) * square r));
              square_root_information_inverse_ :=
                / llt_matrixL (/ (square (doppler_error_factor ep) * square r)) |}.
Proof. intro H. unfold setInformation. rewrite H. reflexivity. Qed.

Lemma weight_positive_factors (f r : R) :
  0 < f -> 0 < r -> llt_matrixL (/ (square f * square r)) = 1 / (f * r).
Proof.
  intros Hf Hr. unfold llt_matrixL, square.
  replace (f * f * (r * r)) with ((f * r) * (f * r)) by ring.
  apply sqrt_inv_square. apply Rmult_lt_0_compat; assumption.
Qed.

Lemma weighted_magnitude_decreases (a b raw : R) :
  0 < a -> a < b -> raw <> 0 -> Rabs (1 / b * raw) < Rabs (1 / a * raw).
Proof.
  intros Ha Hab Hraw.
  assert (Hb : 0 < b) by lra.
  assert (Hia : 0 < 1 / a) by (unfold Rdiv; rewrite Rmult_1_l; apply Rinv_0_lt_compat; exact Ha).
  assert (Hib : 0 < 1 / b) by (unfold Rdiv; rewrite Rmult_1_l; apply Rinv_0_lt_compat; exact Hb).
  assert (Hlt : 1 / b < 1 / a).
  { unfold Rdiv. rewrite !Rmult_1_l. apply Rinv_lt_contravar; [|exact Hab].
    apply Rmult_lt_0_compat; assumption. }
  rewrite !Rabs_mult.
  rewrite (Rabs_right (1 / a)) by lra.
  rewrite (Rabs_right (1 / b)) by lra.
  apply Rmult_lt_compat_r; [apply Rabs_pos_lt; exact Hraw | exact Hlt].
Qed.

(** C5 as amended: for a satellite whose system has the error ratio [r],
    [setInformation] stores the variance (factor)^2 (ratio)^2 and the
    information 1 / variance.  When the factor and the ratio are positive the
    square-root information is 1 / (factor * ratio), so the weighted residual
    is the raw residual times 1 / (factor * ratio); and for a raw residual
    other than zero, a larger factor, or a larger ratio, gives a weighted
    residual of strictly smaller magnitude. *)
Theorem weighting_scales_residual (sat : Satellite) (ratios : list (ascii * R)) (f r : R) :
  map_at ratios (getSystem sat) = Returned r ->
  exists w,
    setInformation sat {| doppler_error_factor := f; system_error_ratio := ratios |}
    = Returned w /\
    covariance_ w = square f * square r /\
    information_ w = 1 / covariance_ w /\
    (0 < f -> 0 < r ->
     square_root_information_ w = 1 / (f * r) /\
     (forall ext this l,
        weighting_ this = w ->
        weighted_error ext this l = error ext this l * (1 / (f * r))) /\
     (forall f' w' raw,
        f < f' -> raw <> 0 ->
        setInformation sat {| doppler_error_factor := f'; system_error_ratio := ratios |}
        = Returned w' ->
        Rabs (square_root_information_ w' * raw) < Rabs (square_root_information_ w * raw)) /\
     (forall ratios' r' w' raw,
        map_at ratios' (getSystem sat) = Returned r' ->
        r < r' -> raw <> 0 ->
        setInformation sat {| doppler_error_factor := f; system_error_ratio := ratios' |}
        = Returned w' ->
        Rabs (square_root_information_ w' * raw) < Rabs (square_root_information_ w * raw))).
Proof.
  intro Hr.
  eexists. split.
  { apply setInformation_weight. simpl. exact Hr. }
  simpl.
  split; [reflexivity|].
  split; [unfold Rdiv; rewrite Rmult_1_l; reflexivity|].
  intros Hf Hr0.
  rewrite (weight_positive_factors f r Hf Hr0).
  split; [reflexivity|].
  split.
  - intros ext this l Hw. unfold weighted_error. rewrite Hw. simpl. ring.
  - split.
    + intros f' w' raw Hff Hraw Hset.
      rewrite (setInformation_weight sat
                 {| doppler_error_factor := f'; system_error_ratio := ratios |} r Hr)
        in Hset.
      injection Hset as <-. simpl.
      rewrite (weight_positive_factors f' r) by lra.
      apply weighted_magnitude_decreases; [| |exact Hraw].
      * apply Rmult_lt_0_compat; assumption.
      * apply Rmult_lt_compat_r; assumption.
    + intros ratios' r' w' raw Hr' Hrr Hraw Hset.
      rewrite (setInformation_weight sat
                 {| doppler_error_factor := f; system_error_ratio := ratios' |} r' Hr')
        in Hset.
      injection Hset as <-. simpl.
      rewrite (weight_positive_factors f r') by lra.
      apply weighted_magnitude_decreases; [| |exact Hraw].
      * apply Rmult_lt_0_compat; assumption.
      * apply Rmult_lt_compat_l; assumption.
Qed.

(** The scene's satellite with factor 2 and ratio 1: the weight is 1/2. *)
Lemma weighting_scales_residual_witness :
  exists w,
    setInformation Scene.satellite (Scene.error_parameter 2 1) = Returned w /\
    covariance_ w = square 2 * square 1 /\
    square_root_information_ w = 1 / (2 * 1).
Proof.
  destruct (weighting_scales_residual Scene.satellite
              (system_error_ratio (Scene.error_parameter 2 1)) 2 1 eq_refl)
    as [w [Hset [Hcov [_ Hpos]]]].
  exists w. split; [exact Hset|]. split; [exact Hcov|].
  apply Hpos; lra.
Defined.

(** C5 as stated fails twice.  With the factor -2 and the ratio 1 the
    weight applied to a raw residual 1 is positive, not 1 / (-2 * 1); and a
    raw residual 0 has the same weighted magnitude with the factor 1 and
    with the larger factor 2. *)
Lemma weighting_not_inverse_product :
  (exists w,
     setInformation Scene.satellite (Scene.error_parameter (-2) 1) = Returned w /\
     square_root_information_ w * 1 <> 1 * (1 / (-2 * 1))) /\
  (exists w w',
     setInformation Scene.satellite (Scene.error_parameter 1 1) = Returned w /\
     setInformation Scene.satellite (Scene.error_parameter 2 1) = Returned w' /\
     ~ Rabs (square_root_information_ w' * 0) < Rabs (square_root_information_ w * 0)).
Proof.
  split.
  - eexists. split; [reflexivity|]. simpl.
    unfold llt_matrixL.
    pose proof (sqrt_pos (/ (square (-2) * square 1))) as Hs.
    lra.
  - eexists. eexists. split; [reflexivity|]. split; [reflexivity|].
    rewrite !Rmult_0_r. lra.
Qed.

(** ** The blocks written by each group *)

Lemma let_pair (A B C : Type) (p : A * B) (f : A -> B -> C) :
  (let '(a, b) := p in f a b) = f (fst p) (snd p).
Proof. destruct p. reflexivity. Qed.

Section Groups.

Variable ext : External.
Variable this : DopplerError.
Variable l : Locals.
Variables (J : PointerArray) (Jmin : option PointerArray).

Let w : R := square_root_information_ (weighting_ this).

Lemma untouched_start (k : nat) : untouched J Jmin k (J, Jmin).
Proof. split; reflexivity. Qed.

Lemma untouched_later (k k' : nat) (raw' : RowVector) (minimal' : Buffer -> RowVector)
    (s : PointerArray * option PointerArray) :
  k <> k' -> untouched J Jmin k s ->
  untouched J Jmin k (write_block k' raw' minimal' (fst s) (snd s)).
Proof.
  intros Hk [H1 H2]. split.
  - rewrite write_block_raw_other by exact Hk. exact H1.
  - rewrite write_block_minimal_other by exact Hk. exact H2.
Qed.

Lemma written_now (k : nat) (raw : RowVector) (minimal : Buffer -> RowVector)
    (min : RowVector) (s : PointerArray * option PointerArray) :
  untouched J Jmin k s ->
  (forall b, J k = Some b -> minimal (store raw b) = min) ->
  written J Jmin raw min k (write_block k raw minimal (fst s) (snd s)).
Proof.
  intros [HJ HM] Hmin. split.
  - rewrite write_block_raw_same, HJ. reflexivity.
  - rewrite write_block_minimal_same, HJ, HM.
    destruct (J k) as [b|]; [|reflexivity].
    rewrite (Hmin b eq_refl). reflexivity.
Qed.

Lemma written_later (k k' : nat) (raw min raw' : RowVector)
    (minimal' : Buffer -> RowVector) (s : PointerArray * option PointerArray) :
  k <> k' -> written J Jmin raw min k s ->
  written J Jmin raw min k (write_block k' raw' minimal' (fst s) (snd s)).
Proof.
  intros Hk [H1 H2]. split.
  - rewrite write_block_raw_other by exact Hk. exact H1.
  - rewrite write_block_minimal_other by exact Hk. exact H2.
Qed.

Lemma write_group1_steps :
  write_group1 ext this l J Jmin =
  let s0 := write_block 0 (scale w (coeffs J_t_ECEF)) (load 3) J Jmin in
  let s1 := write_block 1 (scale w (coeffs (J_v_ECEF ext this l))) (load 3)
              (fst s0) (snd s0) in
  write_block 2 (scale w J_freq) (load 1) (fst s1) (snd s1).
Proof.
  unfold write_group1. rewrite !let_pair. reflexivity.
Qed.

Lemma write_group2_steps (parameters : nat -> Buffer) :
  write_group2 ext this l parameters J Jmin =
  let rows := body_rows ext this l in
  let J0_minimal := scale w (J_T_WS rows) in
  let J_lift := Map_RowMajor 6 7 (liftJacobian ext (parameters 0%nat)) in
  let s0 := write_block 0 (row_times 7 J0_minimal J_lift) (fun _ => J0_minimal) J Jmin in
  let s1 := write_block 1 (scale w (J_speed_and_bias rows)) (load 9) (fst s0) (snd s0) in
  let s2 := write_block 2 (scale w (coeffs (J_t_SR_S rows))) (load 3) (fst s1) (snd s1) in
  write_block 3 (scale w J_freq) (load 1) (fst s2) (snd s2).
Proof.
  unfold write_group2. cbv zeta. rewrite !let_pair. reflexivity.
Qed.

(** The position block of the direct variant. *)
Lemma write_group1_position :
  written J Jmin (scale w (coeffs J_t_ECEF)) (scale w (coeffs J_t_ECEF)) 0
          (write_group1 ext this l J Jmin).
Proof.
  rewrite write_group1_steps. cbv zeta.
  apply written_later; [discriminate|].
  apply written_later; [discriminate|].
  apply (written_now 0 _ (load 3) _ (J, Jmin)); [apply untouched_start|].
  intros b _. apply (load_store (scale w (coeffs J_t_ECEF))).
Qed.

(** The velocity block of the direct variant. *)
Lemma write_group1_velocity :
  written J Jmin (scale w (coeffs (J_v_ECEF ext this l)))
          (scale w (coeffs (J_v_ECEF ext this l))) 1
          (write_group1 ext this l J Jmin).
Proof.
  rewrite write_group1_steps. cbv zeta.
  apply written_later; [discriminate|].
  apply written_now.
  - apply (untouched_later 1 0 _ _ (J, Jmin)); [discriminate | apply untouched_start].
  - intros b _. apply (load_store (scale w (coeffs (J_v_ECEF ext this l)))).
Qed.

(** The pose block of the body-referenced variant: the raw row is the
    minimal row times the lift matrix, the minimal row is [J0_minimal]. *)
Lemma write_group2_pose (parameters : nat -> Buffer) :
  written J Jmin
    (row_times 7 (scale w (J_T_WS (body_rows ext this l)))
       (Map_RowMajor 6 7 (liftJacobian ext (parameters 0%nat))))
    (scale w (J_T_WS (body_rows ext this l))) 0
    (write_group2 ext this l parameters J Jmin).
Proof.
  rewrite write_group2_steps. cbv zeta.
  apply written_later; [discriminate|].
  apply written_later; [discriminate|].
  apply written_later; [discriminate|].
  apply (written_now 0 _ _ _ (J, Jmin)); [apply untouched_start|].
  intros b _. reflexivity.
Qed.

(** The lever-arm block of the body-referenced variant. *)
Lemma write_group2_lever_arm (parameters : nat -> Buffer) :
  written J Jmin (scale w (coeffs (J_t_SR_S (body_rows ext this l))))
          (scale w (coeffs (J_t_SR_S (body_rows ext this l)))) 2
          (write_group2 ext this l parameters J Jmin).
Proof.
  rewrite write_group2_steps. cbv zeta.
  apply written_later; [discriminate|].
  apply written_now.
  - apply untouched_later; [discriminate|].
    apply (untouched_later 2 0 _ _ (J, Jmin)); [discriminate | apply untouched_start].
  - intros b _. apply (load_store (scale w (coeffs (J_t_SR_S (body_rows ext this l))))).
Qed.

End Groups.

(** ** The position Jacobian of the direct variant *)

Lemma store_zero_row (w : R) (b : Buffer) (j : nat) :
  ((j < 3)%nat -> store (scale w (coeffs J_t_ECEF)) b j = 0) /\
  ((3 <= j)%nat -> store (scale w (coeffs J_t_ECEF)) b j = b j).
Proof.
  split; intro Hj.
  - destruct j as [|[|[|j]]]; try lia; unfold store; simpl; ring.
  - apply store_outside. simpl. exact Hj.
Qed.

(** C6: when the direct variant is evaluated with a buffer for the raw
    Jacobian of the position block, the call returns and the three doubles
    of that buffer are zero, whatever the receiver and satellite states; the
    rest of the buffer is kept.  The same holds for the minimal buffer of the
    block when there is one. *)
Theorem direct_position_jacobian_zero (ext : External) (this : DopplerError)
    (parameters : nat -> Buffer) (mem : Memory) (J : PointerArray) (b0 : Buffer) :
  is_estimate_body_ this = false ->
  parameter_block_group_ this = 1%Z ->
  jacobians mem = Some J ->
  J 0%nat = Some b0 ->
  exists mem' b0',
    EvaluateWithMinimalJacobians ext this parameters mem = Returned (true, mem') /\
    entry (jacobians mem') 0 = Some b0' /\
    (forall j, (j < 3)%nat -> b0' j = 0) /\
    (forall j, (3 <= j)%nat -> b0' j = b0 j) /\
    match entry (jacobians_minimal mem) 0 with
    | None => entry (jacobians_minimal mem') 0 = None
    | Some m0 =>
        exists m0',
          entry (jacobians_minimal mem') 0 = Some m0' /\
          (forall j, (j < 3)%nat -> m0' j = 0) /\
          (forall j, (3 <= j)%nat -> m0' j = m0 j)
    end.
Proof.
  intros Hbody Hgroup Hjac Hb0.
  pose proof (decode_direct this parameters Hbody) as Hl.
  destruct (evaluate_decoded ext this parameters mem _ Hl) as [mem' [E [_ Hout]]].
  rewrite Hjac, Hgroup in Hout. cbv zeta in Hout. simpl Z.eqb in Hout. cbv iota in Hout.
  destruct Hout as [HJ HM].
  match type of HJ with
  | _ = Some (fst (write_group1 ?e ?t ?l ?J ?M)) =>
      destruct (write_group1_position e t l J M) as [Hraw Hmin]
  end.
  rewrite Hb0 in Hraw, Hmin. simpl in Hraw.
  exists mem', (store (scale (square_root_information_ (weighting_ this)) (coeffs J_t_ECEF)) b0).
  split; [exact E|].
  split; [rewrite HJ; exact Hraw|].
  split; [intros j Hj; apply store_zero_row; exact Hj|].
  split; [intros j Hj; apply store_zero_row; exact Hj|].
  rewrite HM, Hmin.
  destruct (entry (jacobians_minimal mem) 0) as [m0|]; [|reflexivity].
  eexists. split; [reflexivity|].
  split; intros j Hj; apply store_zero_row; exact Hj.
Qed.

(** The scene's direct instance with every buffer supplied: the position
    Jacobian is written as zeros over the filling value. *)
Lemma direct_position_jacobian_zero_witness :
  exists mem' b0',
    EvaluateWithMinimalJacobians Scene.ext Scene.direct Scene.parameters_direct
      Scene.all_requested = Returned (true, mem') /\
    entry (jacobians mem') 0 = Some b0' /\
    b0' 0%nat = 0 /\ b0' 1%nat = 0 /\ b0' 2%nat = 0 /\ b0' 3%nat = 9.
Proof.
  destruct (direct_position_jacobian_zero Scene.ext Scene.direct Scene.parameters_direct
              Scene.all_requested (fun _ => Some Scene.filled) Scene.filled
              eq_refl eq_refl eq_refl eq_refl)
    as [mem' [b0' [E [Hb [Hz [Hk _]]]]]].
  exists mem', b0'.
  split; [exact E|]. split; [exact Hb|].
  split; [apply Hz; lia|]. split; [apply Hz; lia|]. split; [apply Hz; lia|].
  rewrite Hk by lia. reflexivity.
Defined.

(** ** The pose Jacobian of the body-referenced variant *)

Lemma body_jacobians_pose_length (ext : External) (this : DopplerError) (l : Locals)
    (b : BodyLocals) :
  List.length (J_T_WS (body_jacobians ext this l b)) = 6%nat.
Proof. reflexivity. Qed.

Lemma body_rows_pose_length (ext : External) (this : DopplerError) (l : Locals) :
  List.length (J_T_WS (body_rows ext this l)) = 6%nat.
Proof.
  unfold body_rows. destruct (body l) as [b|]; reflexivity.
Qed.

Lemma six_coefficients (r : RowVector) :
  List.length r = 6%nat ->
  exists a0 a1 a2 a3 a4 a5, r = [a0; a1; a2; a3; a4; a5].
Proof.
  destruct r as [|a0 [|a1 [|a2 [|a3 [|a4 [|a5 [|a6 r]]]]]]]; simpl; intro H; try discriminate.
  repeat eexists.
Qed.

(** The row-times-matrix product of the code, coefficient by coefficient,
    against the sum of the specification. *)
Lemma row_times_lifted (minimal : RowVector) (lift b : Buffer) (j : nat) :
  List.length minimal = 6%nat ->
  ((j < 7)%nat ->
   store (row_times 7 minimal (Map_RowMajor 6 7 lift)) b j = lifted (of_list minimal) lift j) /\
  ((7 <= j)%nat -> store (row_times 7 minimal (Map_RowMajor 6 7 lift)) b j = b j).
Proof.
  intro Hlen.
  destruct (six_coefficients minimal Hlen) as [a0 [a1 [a2 [a3 [a4 [a5 ->]]]]]].
  split; intro Hj.
  - destruct j as [|[|[|[|[|[|[|j]]]]]]]; try lia;
      unfold store, lifted, of_list; simpl; unfold dotl; simpl; ring.
  - apply store_outside. unfold row_times. rewrite length_map, length_seq. exact Hj.
Qed.

Lemma store_minimal_row (minimal : RowVector) (b : Buffer) (i : nat) :
  List.length minimal = 6%nat ->
  ((i < 6)%nat -> store minimal b i = of_list minimal i) /\
  ((6 <= i)%nat -> store minimal b i = b i).
Proof.
  intro Hlen. split; intro Hi.
  - unfold of_list. apply store_inside. lia.
  - apply store_outside. lia.
Qed.

(** C7: when the body-referenced variant is evaluated with a buffer for the
    raw Jacobian of the pose block, the seven doubles written there are the
    weighted minimal row [J0_minimal] = weight * [J_T_WS] (six coefficients)
    times the 6 x 7 matrix that [liftJacobian] returns for the pose buffer
    [parameters[0]] of this very call; the minimal buffer of the block, when
    there is one, receives [J0_minimal] itself. *)
Theorem pose_jacobian_is_lifted_minimal (ext : External) (this : DopplerError)
    (parameters : nat -> Buffer) (mem : Memory) (l : Locals)
    (J : PointerArray) (b0 : Buffer) :
  is_estimate_body_ this = true ->
  parameter_block_group_ this = 2%Z ->
  decode this parameters = Returned l ->
  jacobians mem = Some J ->
  J 0%nat = Some b0 ->
  let J0_minimal :=
    of_list (scale (square_root_information_ (weighting_ this))
                   (J_T_WS (body_rows ext this l))) in
  exists mem' b0',
    EvaluateWithMinimalJacobians ext this parameters mem = Returned (true, mem') /\
    entry (jacobians mem') 0 = Some b0' /\
    (forall j, (j < 7)%nat ->
               b0' j = lifted J0_minimal (liftJacobian ext (parameters 0%nat)) j) /\
    (forall j, (7 <= j)%nat -> b0' j = b0 j) /\
    match entry (jacobians_minimal mem) 0 with
    | None => entry (jacobians_minimal mem') 0 = None
    | Some m0 =>
        exists m0',
          entry (jacobians_minimal mem') 0 = Some m0' /\
          (forall i, (i < 6)%nat -> m0' i = J0_minimal i) /\
          (forall i, (6 <= i)%nat -> m0' i = m0 i) /\
          (forall j, (j < 7)%nat ->
                     b0' j = lifted m0' (liftJacobian ext (parameters 0%nat)) j)
    end.
Proof.
  intros _ Hgroup Hl Hjac Hb0 J0_minimal.
  destruct (evaluate_decoded ext this parameters mem _ Hl) as [mem' [E [_ Hout]]].
  rewrite Hjac, Hgroup in Hout. cbv zeta in Hout. simpl Z.eqb in Hout. cbv iota in Hout.
  simpl fst in Hout; simpl snd in Hout.
  destruct Hout as [HJ HM].
  destruct (write_group2_pose ext this l J (jacobians_minimal mem) parameters)
    as [Hraw Hmin].
  rewrite Hb0 in Hraw, Hmin. simpl in Hraw.
  set (w := square_root_information_ (weighting_ this)) in *.
  assert (Hlen : List.length (scale w (J_T_WS (body_rows ext this l))) = 6%nat).
  { unfold scale. rewrite length_map. apply body_rows_pose_length. }
  eexists mem', _.
  split; [exact E|].
  split; [rewrite HJ; exact Hraw|].
  split; [intros j Hj; apply row_times_lifted; assumption|].
  split; [intros j Hj; apply row_times_lifted; assumption|].
  rewrite HM, Hmin.
  destruct (entry (jacobians_minimal mem) 0) as [m0|]; [|reflexivity].
  eexists. split; [reflexivity|].
  split; [intros i Hi; apply store_minimal_row; assumption|].
  split; [intros i Hi; apply store_minimal_row; assumption|].
  intros j Hj.
  destruct (row_times_lifted (scale w (J_T_WS (body_rows ext this l)))
              (liftJacobian ext (parameters 0%nat)) b0 j Hlen) as [Hin _].
  rewrite (Hin Hj). unfold lifted.
  rewrite !(proj1 (store_minimal_row _ m0 _ Hlen)) by lia.
  reflexivity.
Qed.

Example body_turning_constructed :
  (this <- DopplerError_ctor_angular Scene.ext [7; 9; 3; 1]%Z Scene.measurement 0%nat
             (Scene.error_parameter 2 1) (V3 0 0 1) ;;
   Returned (setCoordinate this (Scene.geo true))) = Returned Scene.body_turning.
Proof. reflexivity. Qed.

(** The turning body of the scene, every buffer supplied: the raw pose
    Jacobian written is the minimal one written, times the lift matrix of the
    turned pose. *)
Lemma pose_jacobian_is_lifted_minimal_witness :
  exists mem' b0' m0',
    EvaluateWithMinimalJacobians Scene.ext Scene.body_turning Scene.parameters_turned
      Scene.all_requested = Returned (true, mem') /\
    entry (jacobians mem') 0 = Some b0' /\
    entry (jacobians_minimal mem') 0 = Some m0' /\
    (forall j, (j < 7)%nat ->
               b0' j = lifted m0' (Scene.lift (Scene.parameters_turned 0%nat)) j).
Proof.
  edestruct (pose_jacobian_is_lifted_minimal Scene.ext Scene.body_turning
               Scene.parameters_turned Scene.all_requested _
               (fun _ => Some Scene.filled) Scene.filled
               eq_refl eq_refl eq_refl eq_refl eq_refl)
    as [mem' [b0' [E [Hb [_ [_ [m0' [Hm [_ [_ Hlift]]]]]]]]]].
  exists mem', b0', m0'.
  split; [exact E|]. split; [exact Hb|]. split; [exact Hm|]. exact Hlift.
Defined.

(** ** Zero lever arm and zero angular velocity *)

Lemma transformVector_zero (q : Quaterniond) :
  transformVector q (V3 0 0 0) = V3 0 0 0.
Proof.
  unfold transformVector, cross, vadd, vscale. simpl. f_equal; ring.
Qed.

Lemma mvec_zero (m : Matrix3d) : mvec m (V3 0 0 0) = V3 0 0 0.
Proof. unfold mvec, rdot. simpl. f_equal; ring. Qed.

Lemma vadd_zero (v : Vector3d) : vadd v (V3 0 0 0) = v.
Proof. destruct v as [a b c]. unfold vadd. simpl. f_equal; ring. Qed.

Lemma Map_of_coeffs (v : Vector3d) :
  Map_Vector3d (of_list (coeffs (transpose v))) 0 = v.
Proof. destruct v as [a b c]. reflexivity. Qed.

Lemma rmul_skew_zero (r : RowVector3d) :
  rmul r (skewSymmetric (V3 0 0 0)) = RowVector3d_Zero.
Proof.
  unfold rmul, rdot, skewSymmetric, col0, col1, col2, RowVector3d_Zero. simpl.
  f_equal; ring.
Qed.

Lemma rmul_zero_row (m : Matrix3d) : rmul RowVector3d_Zero m = RowVector3d_Zero.
Proof.
  unfold rmul, rdot, RowVector3d_Zero. simpl. f_equal; ring.
Qed.

Lemma store_scaled_zero_row (w : R) (b : Buffer) (j : nat) :
  (j < 3)%nat -> store (scale w (coeffs RowVector3d_Zero)) b j = 0.
Proof.
  intro Hj. destruct j as [|[|[|j]]]; try lia; unfold store; simpl; ring.
Qed.

Lemma store_lifted_zero_row (w : R) (lift b : Buffer) (j : nat) :
  (j < 7)%nat ->
  store (row_times 7 (scale w (Zero 6)) (Map_RowMajor 6 7 lift)) b j = 0.
Proof.
  intro Hj.
  destruct j as [|[|[|[|[|[|[|j]]]]]]]; try lia;
    unfold store; simpl; unfold dotl; simpl; ring.
Qed.

Section ZeroLeverArm.

Variable ext : External.
Variable this : DopplerError.
Variable c : GeoCoordinate.
Variable parameters : nat -> Buffer.

Hypothesis body_referenced : is_estimate_body_ this = true.
Hypothesis has_coordinate : coordinate_ this = Some c.
Hypothesis has_origin : isZeroSetted c = true.
Hypothesis no_angular_velocity : angular_velocity_ this = V3 0 0 0.
Hypothesis no_lever_arm : Map_Vector3d (parameters 2%nat) 0 = V3 0 0 0.

(** The locals of the body-referenced evaluation. *)
Lemma decode_zero_lever_arm :
  decode this parameters =
  Returned {| t_WR_ECEF := convert c (Map_Vector3d (parameters 0%nat) 0) ENU ECEF;
              v_WR_ECEF := rotate c (Map_Vector3d (parameters 1%nat) 0) ENU ECEF;
              clock_frequency := parameters 3%nat 0%nat;
              body := Some {| q_WS := Map_Quaterniond (parameters 0%nat) 3;
                              t_SR_S := V3 0 0 0;
                              coordinate := c |} |}.
Proof.
  unfold decode.
  rewrite body_referenced, has_coordinate, has_origin, no_angular_velocity, no_lever_arm.
  simpl negb. cbv iota.
  rewrite transformVector_zero, mvec_zero, !vadd_zero.
  reflexivity.
Qed.

(** The locals of the direct evaluation on the body's ECEF state. *)
Lemma decode_direct_counterpart :
  decode (direct_counterpart this) (direct_parameters c parameters) =
  Returned {| t_WR_ECEF := convert c (Map_Vector3d (parameters 0%nat) 0) ENU ECEF;
              v_WR_ECEF := rotate c (Map_Vector3d (parameters 1%nat) 0) ENU ECEF;
              clock_frequency := parameters 3%nat 0%nat;
              body := None |}.
Proof.
  rewrite decode_direct by reflexivity.
  unfold direct_parameters. rewrite !Map_of_coeffs. reflexivity.
Qed.

(** The rows of the body-referenced variant: nothing for the pose, nothing
    for the lever arm. *)
Lemma body_jacobians_zero_lever_arm (l : Locals) (b : BodyLocals) :
  J_T_WS (body_jacobians ext this l b) = Zero 6 /\
  J_t_SR_S (body_jacobians ext this l b) = RowVector3d_Zero.
Proof.
  unfold body_jacobians. cbv zeta. simpl J_T_WS. simpl J_t_SR_S.
  rewrite no_angular_velocity, rmul_skew_zero, !rmul_zero_row.
  split; reflexivity.
Qed.

End ZeroLeverArm.

(** C8: a body-referenced evaluation with no lever arm and no angular
    velocity, and the direct evaluation for the same satellite, observation
    and weighting on the body position converted to ECEF, the body velocity
    rotated to ECEF and the same clock, both return; they decode the same
    receiver ECEF position and velocity, predict the same Doppler and write
    the same weighted residual.  The rows of the body rotation and of the
    lever arm are zero, so the raw Jacobian written for the pose block (seven
    doubles) and the one written for the lever-arm block (three doubles) are
    zero. *)
Theorem zero_lever_arm_matches_direct (ext : External) (this : DopplerError)
    (c : GeoCoordinate) (parameters : nat -> Buffer) (memB memA : Memory) :
  is_estimate_body_ this = true ->
  parameter_block_group_ this = 2%Z ->
  coordinate_ this = Some c ->
  isZeroSetted c = true ->
  angular_velocity_ this = V3 0 0 0 ->
  Map_Vector3d (parameters 2%nat) 0 = V3 0 0 0 ->
  exists lB lA memB' memA',
    decode this parameters = Returned lB /\
    decode (direct_counterpart this) (direct_parameters c parameters) = Returned lA /\
    t_WR_ECEF lB = t_WR_ECEF lA /\
    v_WR_ECEF lB = v_WR_ECEF lA /\
    doppler_estimate ext this lB = doppler_estimate ext (direct_counterpart this) lA /\
    EvaluateWithMinimalJacobians ext this parameters memB = Returned (true, memB') /\
    EvaluateWithMinimalJacobians ext (direct_counterpart this)
      (direct_parameters c parameters) memA = Returned (true, memA') /\
    residuals memB' 0%nat = residuals memA' 0%nat /\
    J_T_WS (body_rows ext this lB) = Zero 6 /\
    J_t_SR_S (body_rows ext this lB) = RowVector3d_Zero /\
    (forall b0, entry (jacobians memB) 0 = Some b0 ->
       exists b0', entry (jacobians memB') 0 = Some b0' /\
                   forall j, (j < 7)%nat -> b0' j = 0) /\
    (forall b2, entry (jacobians memB) 2 = Some b2 ->
       exists b2', entry (jacobians memB') 2 = Some b2' /\
                   forall j, (j < 3)%nat -> b2' j = 0).
Proof.
  intros Hbody Hgroup Hc Hz Hw Hlever.
  pose proof (decode_zero_lever_arm this c parameters Hbody Hc Hz Hw Hlever) as HlB.
  pose proof (decode_direct_counterpart this c parameters) as HlA.
  destruct (evaluate_decoded ext this parameters memB _ HlB) as [memB' [EB [HresB HoutB]]].
  destruct (evaluate_decoded ext (direct_counterpart this) (direct_parameters c parameters)
              memA _ HlA) as [memA' [EA [HresA _]]].
  set (lB := {| t_WR_ECEF := convert c (Map_Vector3d (parameters 0%nat) 0) ENU ECEF;
                v_WR_ECEF := rotate c (Map_Vector3d (parameters 1%nat) 0) ENU ECEF;
                clock_frequency := parameters 3%nat 0%nat;
                body := Some {| q_WS := Map_Quaterniond (parameters 0%nat) 3;
                                t_SR_S := V3 0 0 0;
                                coordinate := c |} |}) in *.
  assert (Hrows : J_T_WS (body_rows ext this lB) = Zero 6 /\
                  J_t_SR_S (body_rows ext this lB) = RowVector3d_Zero).
  { unfold body_rows, lB. simpl body.
    apply body_jacobians_zero_lever_arm. exact Hw. }
  destruct Hrows as [Hpose Hlev].
  exists lB. eexists. exists memB', memA'.
  split; [exact HlB|]. split; [exact HlA|].
  split; [reflexivity|]. split; [reflexivity|]. split; [reflexivity|].
  split; [exact EB|]. split; [exact EA|].
  split; [rewrite HresB, HresA; reflexivity|].
  split; [exact Hpose|]. split; [exact Hlev|].
  destruct (jacobians memB) as [J|].
  - rewrite Hgroup in HoutB. cbv zeta in HoutB. simpl Z.eqb in HoutB. cbv iota in HoutB.
    simpl fst in HoutB; simpl snd in HoutB. destruct HoutB as [HJ _].
    rewrite HJ. simpl entry.
    split.
    + intros b0 Hb0.
      destruct (write_group2_pose ext this lB J (jacobians_minimal memB) parameters)
        as [Hraw _].
      rewrite Hraw, Hb0, Hpose. simpl option_map.
      eexists. split; [reflexivity|].
      intros j Hj. apply store_lifted_zero_row. exact Hj.
    + intros b2 Hb2.
      destruct (write_group2_lever_arm ext this lB J (jacobians_minimal memB) parameters)
        as [Hraw _].
      rewrite Hraw, Hb2, Hlev. simpl option_map.
      eexists. split; [reflexivity|].
      intros j Hj. apply store_scaled_zero_row. exact Hj.
  - split; intros b Hb; discriminate Hb.
Qed.

(** The scene's body at the local origin, without lever arm and at rest
    about its axes, against the direct instance on the converted state. *)
Lemma zero_lever_arm_matches_direct_witness :
  exists memB' memA' b0' b2',
    EvaluateWithMinimalJacobians Scene.ext
      (setCoordinate Scene.body_referenced (Scene.geo true))
      Scene.parameters_body Scene.all_requested = Returned (true, memB') /\
    EvaluateWithMinimalJacobians Scene.ext
      (direct_counterpart (setCoordinate Scene.body_referenced (Scene.geo true)))
      (direct_parameters (Scene.geo true) Scene.parameters_body)
      Scene.all_requested = Returned (true, memA') /\
    residuals memB' 0%nat = residuals memA' 0%nat /\
    entry (jacobians memB') 0 = Some b0' /\ b0' 6%nat = 0 /\
    entry (jacobians memB') 2 = Some b2' /\ b2' 2%nat = 0.
Proof.
  destruct (zero_lever_arm_matches_direct Scene.ext
              (setCoordinate Scene.body_referenced (Scene.geo true))
              (Scene.geo true) Scene.parameters_body
              Scene.all_requested Scene.all_requested
              eq_refl eq_refl eq_refl eq_refl eq_refl eq_refl)
    as [lB [lA [memB' [memA' [_ [_ [_ [_ [_ [EB [EA [Hres [_ [_ [H0 H2]]]]]]]]]]]]]]].
  destruct (H0 Scene.filled eq_refl) as [b0' [Hb0 Hz0]].
  destruct (H2 Scene.filled eq_refl) as [b2' [Hb2 Hz2]].
  exists memB', memA', b0', b2'.
  split; [exact EB|]. split; [exact EA|]. split; [exact Hres|].
  split; [exact Hb0|]. split; [apply Hz0; lia|].
  split; [exact Hb2|]. apply Hz2; lia.
Defined.

(** * Further properties of the residual block *)

(** ** Every block of each group *)

Lemma J_v_ECEF_coefficients (ext : External) (this : DopplerError) (l : Locals) :
  J_v_ECEF ext this l = transpose (e ext this l).
Proof.
  unfold J_v_ECEF, e, transpose, rneg, vdiv, vsub. simpl.
  f_equal; unfold Rdiv; ring.
Qed.

Lemma body_rows_speed_length (ext : External) (this : DopplerError) (l : Locals) :
  List.length (J_speed_and_bias (body_rows ext this l)) = 9%nat.
Proof.
  unfold body_rows. destruct (body l) as [b|]; reflexivity.
Qed.

Lemma load_store_scaled (n : nat) (w : R) (row : RowVector) (b : Buffer) :
  List.length row = n -> load n (store (scale w row) b) = scale w row.
Proof.
  intros <-. rewrite <- (load_store (scale w row) b) at 2.
  unfold scale. rewrite length_map. reflexivity.
Qed.

Section AllBlocks.

Variable ext : External.
Variable this : DopplerError.
Variable l : Locals.
Variables (J : PointerArray) (Jmin : option PointerArray).

Lemma untouched_write_block (k k' : nat) (raw' : RowVector)
    (minimal' : Buffer -> RowVector) (s : PointerArray * option PointerArray) :
  k <> k' -> untouched J Jmin k s ->
  untouched J Jmin k (write_block k' raw' minimal' (fst s) (snd s)).
Proof. apply untouched_later. Qed.

(** The direct group, block by block. *)
Lemma write_group1_blocks (k : nat) :
  block_outcome J Jmin (direct_rows ext this l k) k (write_group1 ext this l J Jmin).
Proof.
  rewrite write_group1_steps. cbv zeta.
  destruct k as [|[|[|k]]]; unfold block_outcome, direct_rows.
  - apply written_later; [discriminate|].
    apply written_later; [discriminate|].
    apply (written_now J Jmin 0 _ (load 3) _ (J, Jmin)); [apply untouched_start|].
    intros b _. apply (load_store (scale _ (coeffs J_t_ECEF))).
  - apply written_later; [discriminate|].
    apply written_now.
    + apply (untouched_later J Jmin 1 0 _ _ (J, Jmin)); [discriminate | apply untouched_start].
    + intros b _. apply (load_store (scale _ (coeffs (J_v_ECEF ext this l)))).
  - apply written_now.
    + apply untouched_later; [discriminate|].
      apply (untouched_later J Jmin 2 0 _ _ (J, Jmin)); [discriminate | apply untouched_start].
    + intros b _. apply (load_store (scale _ J_freq)).
  - apply untouched_later; [discriminate|].
    apply untouched_later; [discriminate|].
    apply (untouched_later J Jmin _ 0 _ _ (J, Jmin)); [discriminate | apply untouched_start].
Qed.

(** The body-referenced group, block by block. *)
Lemma write_group2_blocks (parameters : nat -> Buffer) (k : nat) :
  block_outcome J Jmin (body_block_rows ext this l parameters k) k
    (write_group2 ext this l parameters J Jmin).
Proof.
  rewrite write_group2_steps. cbv zeta.
  destruct k as [|[|[|[|k]]]]; unfold block_outcome, body_block_rows.
  - apply written_later; [discriminate|].
    apply written_later; [discriminate|].
    apply written_later; [discriminate|].
    apply (written_now J Jmin 0 _ _ _ (J, Jmin)); [apply untouched_start|].
    intros b _. reflexivity.
  - apply written_later; [discriminate|].
    apply written_later; [discriminate|].
    apply written_now.
    + apply (untouched_later J Jmin 1 0 _ _ (J, Jmin)); [discriminate | apply untouched_start].
    + intros b _. apply load_store_scaled. apply body_rows_speed_length.
  - apply written_later; [discriminate|].
    apply written_now.
    + apply untouched_later; [discriminate|].
      apply (untouched_later J Jmin 2 0 _ _ (J, Jmin)); [discriminate | apply untouched_start].
    + intros b _. apply (load_store (scale _ (coeffs (J_t_SR_S _)))).
  - apply written_now.
    + apply untouched_later; [discriminate|].
      apply untouched_later; [discriminate|].
      apply (untouched_later J Jmin 3 0 _ _ (J, Jmin)); [discriminate | apply untouched_start].
    + intros b _. apply (load_store (scale _ J_freq)).
  - apply untouched_later; [discriminate|].
    apply untouched_later; [discriminate|].
    apply untouched_later; [discriminate|].
    apply (untouched_later J Jmin _ 0 _ _ (J, Jmin)); [discriminate | apply untouched_start].
Qed.

End AllBlocks.

(** The rows that an instance assigns to block [k], by its group. *)
Lemma evaluate_blocks (ext : External) (this : DopplerError)
    (parameters : nat -> Buffer) (mem : Memory) (l : Locals) (J : PointerArray)
    (rows : nat -> option (RowVector * RowVector)) :
  decode this parameters = Returned l ->
  jacobians mem = Some J ->
  (parameter_block_group_ this = 1%Z /\ rows = direct_rows ext this l) \/
  (parameter_block_group_ this = 2%Z /\ rows = body_block_rows ext this l parameters) ->
  exists mem' J',
    EvaluateWithMinimalJacobians ext this parameters mem = Returned (true, mem') /\
    residuals mem' = store [weighted_error ext this l] (residuals mem) /\
    jacobians mem' = Some J' /\
    forall k, block_outcome J (jacobians_minimal mem) (rows k) k
                (J', jacobians_minimal mem').
Proof.
  intros Hl Hjac Hgroup.
  destruct (evaluate_decoded ext this parameters mem l Hl) as [mem' [E [Hres Hout]]].
  rewrite Hjac in Hout. cbv zeta in Hout.
  destruct Hgroup as [[Hg ->]|[Hg ->]]; rewrite Hg in Hout; simpl Z.eqb in Hout;
    cbv iota in Hout; simpl fst in Hout; simpl snd in Hout; destruct Hout as [HJ HM].
  - exists mem', (fst (write_group1 ext this l J (jacobians_minimal mem))).
    split; [exact E|]. split; [exact Hres|]. split; [exact HJ|].
    intro k. rewrite HM. rewrite <- surjective_pairing. apply write_group1_blocks.
  - exists mem', (fst (write_group2 ext this l parameters J (jacobians_minimal mem))).
    split; [exact E|]. split; [exact Hres|]. split; [exact HJ|].
    intro k. rewrite HM. rewrite <- surjective_pairing. apply write_group2_blocks.
Qed.

Lemma block_outcome_raw (J : PointerArray) (Jmin : option PointerArray)
    (rows : option (RowVector * RowVector)) (k : nat)
    (after : PointerArray * option PointerArray) :
  block_outcome J Jmin rows k after ->
  fst after k =
  match rows with
  | Some (raw, _) => option_map (store raw) (J k)
  | None => J k
  end.
Proof.
  unfold block_outcome. destruct rows as [[raw minimal]|]; intros [H _]; exact H.
Qed.

Lemma block_outcome_minimal (J : PointerArray) (Jmin : option PointerArray)
    (rows : option (RowVector * RowVector)) (k : nat)
    (after : PointerArray * option PointerArray) :
  block_outcome J Jmin rows k after ->
  entry (snd after) k =
  match rows, J k with
  | Some (_, minimal), Some _ => option_map (store minimal) (entry Jmin k)
  | _, _ => entry Jmin k
  end.
Proof.
  unfold block_outcome. destruct rows as [[raw minimal]|]; intros [_ H]; rewrite H.
  - destruct (J k); reflexivity.
  - destruct (J k); reflexivity.
Qed.

(** The rows of an instance, whatever its group: those of the direct group,
    those of the body-referenced group, or none at all. *)
Lemma evaluate_any_group (ext : External) (this : DopplerError)
    (parameters : nat -> Buffer) (mem : Memory) (l : Locals) (J : PointerArray) :
  decode this parameters = Returned l ->
  jacobians mem = Some J ->
  exists rows mem' J',
    (rows = direct_rows ext this l /\ parameter_block_group_ this = 1%Z \/
     rows = body_block_rows ext this l parameters /\ parameter_block_group_ this = 2%Z \/
     rows = (fun _ => None) /\ parameter_block_group_ this <> 1%Z /\
     parameter_block_group_ this <> 2%Z) /\
    EvaluateWithMinimalJacobians ext this parameters mem = Returned (true, mem') /\
    residuals mem' = store [weighted_error ext this l] (residuals mem) /\
    jacobians mem' = Some J' /\
    forall k, block_outcome J (jacobians_minimal mem) (rows k) k
                (J', jacobians_minimal mem').
Proof.
  intros Hl Hjac.
  destruct (Z.eq_dec (parameter_block_group_ this) 1) as [H1|H1].
  - destruct (evaluate_blocks ext this parameters mem l J (direct_rows ext this l) Hl Hjac)
      as [mem' [J' H]]; [left; auto|].
    exists (direct_rows ext this l), mem', J'. split; [left; auto | exact H].
  - destruct (Z.eq_dec (parameter_block_group_ this) 2) as [H2|H2].
    + destruct (evaluate_blocks ext this parameters mem l J
                  (body_block_rows ext this l parameters) Hl Hjac)
        as [mem' [J' H]]; [right; auto|].
      exists (body_block_rows ext this l parameters), mem', J'.
      split; [right; left; auto | exact H].
    + destruct (evaluate_decoded ext this parameters mem l Hl) as [mem' [E [Hres Hout]]].
      rewrite Hjac in Hout. cbv zeta in Hout.
      apply Z.eqb_neq in H1, H2. rewrite H1, H2 in Hout. simpl in Hout.
      destruct Hout as [HJ HM].
      exists (fun _ => None), mem', J.
      split; [right; right; split; [reflexivity | split; apply Z.eqb_neq; assumption]|].
      split; [exact E|]. split; [exact Hres|]. split; [exact HJ|].
      intro k. rewrite HM. apply untouched_start.
Qed.

(** ** The residual buffer *)

(** X1: a call that returns has written [residuals[0]] and nothing else of
    the residual buffer, and the value written is the same whatever
    Jacobians are requested: any other memory gives a call that returns with
    the same [residuals[0]]. *)
Theorem residual_ignores_jacobian_request (ext : External) (this : DopplerError)
    (parameters : nat -> Buffer) (mem mem' : Memory) (b : bool) :
  EvaluateWithMinimalJacobians ext this parameters mem = Returned (b, mem') ->
  (forall j, (1 <= j)%nat -> residuals mem' j = residuals mem j) /\
  (forall other,
     exists other',
       EvaluateWithMinimalJacobians ext this parameters other = Returned (true, other') /\
       residuals other' 0%nat = residuals mem' 0%nat).
Proof.
  intro Hrun.
  destruct (evaluate_returned ext this parameters mem _ Hrun) as [l Hl].
  destruct (evaluate_decoded ext this parameters mem l Hl) as [mem2 [E [Hres _]]].
  rewrite E in Hrun. injection Hrun as _ <-.
  split.
  - intros j Hj. rewrite Hres. apply store_outside. simpl. exact Hj.
  - intro other.
    destruct (evaluate_decoded ext this parameters other l Hl) as [other' [E' [Hres' _]]].
    exists other'. split; [exact E'|]. rewrite Hres, Hres'. reflexivity.
Qed.

Lemma residual_ignores_jacobian_request_witness :
  exists mem' other',
    EvaluateWithMinimalJacobians Scene.ext Scene.direct Scene.parameters_direct
      Scene.all_requested = Returned (true, mem') /\
    residuals mem' 1%nat = 9 /\
    EvaluateWithMinimalJacobians Scene.ext Scene.direct Scene.parameters_direct
      Scene.only_minimal = Returned (true, other') /\
    residuals other' 0%nat = residuals mem' 0%nat.
Proof.
  eexists.
  destruct (residual_ignores_jacobian_request Scene.ext Scene.direct
              Scene.parameters_direct Scene.all_requested _ true eq_refl) as [Hframe Hsame].
  destruct (Hsame Scene.only_minimal) as [other' [E Hres]].
  exists other'.
  split; [reflexivity|]. split; [rewrite Hframe by lia; reflexivity|].
  split; [exact E | exact Hres].
Defined.

(** X2: asking for minimal Jacobians changes neither the residual nor any
    raw Jacobian: a call of [EvaluateWithMinimalJacobians] that returns and
    the call of [Evaluate] on the same residual and raw buffers leave the
    same residual buffer and, block by block, the same raw Jacobians. *)
Theorem minimal_request_keeps_raw (ext : External) (this : DopplerError)
    (parameters : nat -> Buffer) (mem mem' : Memory) (b : bool) :
  EvaluateWithMinimalJacobians ext this parameters mem = Returned (b, mem') ->
  exists mem'',
    Evaluate ext this parameters (residuals mem) (jacobians mem) = Returned (true, mem'') /\
    residuals mem'' = residuals mem' /\
    forall k, entry (jacobians mem'') k = entry (jacobians mem') k.
Proof.
  intro Hrun. unfold Evaluate.
  set (plain := {| residuals := residuals mem; jacobians := jacobians mem;
                   jacobians_minimal := None |}).
  destruct (evaluate_returned ext this parameters mem _ Hrun) as [l Hl].
  destruct (jacobians mem) as [J|] eqn:Hjac.
  - destruct (evaluate_any_group ext this parameters mem l J Hl Hjac)
      as [rows [m1 [J1 [Hrows [E1 [Hres1 [HJ1 Hb1]]]]]]].
    destruct (evaluate_any_group ext this parameters plain l J Hl eq_refl)
      as [rows2 [m2 [J2 [Hrows2 [E2 [Hres2 [HJ2 Hb2]]]]]]].
    assert (Heq : rows2 = rows).
    { destruct Hrows as [[-> Hg]|[[-> Hg]|[-> [Hg Hg']]]];
        destruct Hrows2 as [[-> Hg2]|[[-> Hg2]|[-> [Hg2 Hg2']]]];
        try reflexivity; congruence. }
    subst rows2.
    rewrite E1 in Hrun. injection Hrun as _ <-.
    exists m2. split; [exact E2|]. split; [rewrite Hres1, Hres2; reflexivity|].
    intro k. rewrite HJ1, HJ2. simpl.
    pose proof (block_outcome_raw _ _ _ _ _ (Hb1 k)) as R1.
    pose proof (block_outcome_raw _ _ _ _ _ (Hb2 k)) as R2.
    simpl in R1, R2. rewrite R1, R2. reflexivity.
  - destruct (evaluate_decoded ext this parameters mem l Hl) as [m1 [E1 [Hres1 Hout1]]].
    destruct (evaluate_decoded ext this parameters plain l Hl) as [m2 [E2 [Hres2 Hout2]]].
    rewrite Hjac in Hout1. simpl in Hout2.
    rewrite E1 in Hrun. injection Hrun as _ <-.
    exists m2. split; [exact E2|]. split; [rewrite Hres1, Hres2; reflexivity|].
    intro k. destruct Hout1 as [-> _]. destruct Hout2 as [-> _]. reflexivity.
Qed.

Lemma minimal_request_keeps_raw_witness :
  exists mem' mem'',
    EvaluateWithMinimalJacobians Scene.ext Scene.body_turning Scene.parameters_turned
      Scene.all_requested = Returned (true, mem') /\
    Evaluate Scene.ext Scene.body_turning Scene.parameters_turned Scene.filled
      (Some (fun _ => Some Scene.filled)) = Returned (true, mem'') /\
    entry (jacobians mem'') 0 = entry (jacobians mem') 0.
Proof.
  eexists.
  destruct (minimal_request_keeps_raw Scene.ext Scene.body_turning Scene.parameters_turned
              Scene.all_requested _ true eq_refl) as [mem'' [E [_ Hraw]]].
  exists mem''. split; [reflexivity|]. split; [exact E | apply Hraw].
Defined.

(** ** Where the Jacobians are written *)

Lemma same_from_refl (n : nat) (x : option Buffer) : same_from n x x.
Proof. destruct x; simpl; auto. Qed.

Lemma same_from_store (n : nat) (row : RowVector) (x : option Buffer) :
  (List.length row <= n)%nat -> same_from n x (option_map (store row) x).
Proof.
  intro Hlen. destruct x as [b|]; simpl; [|exact I].
  intros j Hj. apply store_outside. lia.
Qed.

Lemma direct_rows_fit (ext : External) (this : DopplerError) (l : Locals) :
  rows_fit 1 (direct_rows ext this l).
Proof.
  intro k. destruct k as [|[|[|k]]]; simpl; auto.
  unfold block_size. simpl. destruct k; reflexivity.
Qed.

Lemma body_block_rows_fit (ext : External) (this : DopplerError) (l : Locals)
    (parameters : nat -> Buffer) :
  rows_fit 2 (body_block_rows ext this l parameters).
Proof.
  intro k. destruct k as [|[|[|[|k]]]]; unfold body_block_rows.
  - unfold row_times, scale. rewrite !length_map, length_seq, body_rows_pose_length.
    split; [reflexivity|]. split; [lia | right; auto].
  - unfold scale. rewrite length_map, body_rows_speed_length.
    split; [reflexivity|]. split; [lia | left; reflexivity].
  - simpl. auto.
  - simpl. auto.
  - unfold block_size. simpl. destruct k; reflexivity.
Qed.

Lemma no_rows_fit (group : Z) :
  group <> 1%Z -> group <> 2%Z -> rows_fit group (fun _ => None).
Proof.
  intros H1 H2 k. unfold block_size.
  apply Z.eqb_neq in H1, H2. rewrite H1, H2. reflexivity.
Qed.

(** A returned call in terms of the rows of the instance's group. *)
Lemma evaluate_rows (ext : External) (this : DopplerError)
    (parameters : nat -> Buffer) (mem mem' : Memory) (b : bool) :
  EvaluateWithMinimalJacobians ext this parameters mem = Returned (b, mem') ->
  exists l,
    decode this parameters = Returned l /\
    b = true /\
    residuals mem' = store [weighted_error ext this l] (residuals mem) /\
    match jacobians mem with
    | None => jacobians mem' = None /\ jacobians_minimal mem' = jacobians_minimal mem
    | Some J =>
        exists rows J',
          (rows = direct_rows ext this l /\ parameter_block_group_ this = 1%Z \/
           rows = body_block_rows ext this l parameters /\
           parameter_block_group_ this = 2%Z \/
           rows = (fun _ => None) /\ parameter_block_group_ this <> 1%Z /\
           parameter_block_group_ this <> 2%Z) /\
          rows_fit (parameter_block_group_ this) rows /\
          jacobians mem' = Some J' /\
          forall k, block_outcome J (jacobians_minimal mem) (rows k) k
                      (J', jacobians_minimal mem')
    end.
Proof.
  intro Hrun.
  destruct (evaluate_returned ext this parameters mem _ Hrun) as [l Hl].
  exists l. split; [exact Hl|].
  destruct (jacobians mem) as [J|] eqn:Hjac.
  - destruct (evaluate_any_group ext this parameters mem l J Hl Hjac)
      as [rows [m1 [J1 [Hrows [E1 [Hres1 [HJ1 Hb1]]]]]]].
    rewrite E1 in Hrun. injection Hrun as <- <-.
    split; [reflexivity|]. split; [exact Hres1|].
    exists rows, J1. split; [exact Hrows|].
    split; [|split; [exact HJ1 | exact Hb1]].
    destruct Hrows as [[-> Hg]|[[-> Hg]|[-> [Hg Hg']]]].
    + rewrite Hg. apply direct_rows_fit.
    + rewrite Hg. apply body_block_rows_fit.
    + apply no_rows_fit; assumption.
  - destruct (evaluate_decoded ext this parameters mem l Hl) as [m1 [E1 [Hres1 Hout1]]].
    rewrite Hjac in Hout1.
    rewrite E1 in Hrun. injection Hrun as <- <-.
    split; [reflexivity|]. split; [exact Hres1 | exact Hout1].
Qed.

(** X3: a call never writes outside the blocks of its group.  For block [k]
    of size [n] the raw buffer and the minimal buffer are unchanged from
    offset [n] on; for an index that is no block of the group (3 and above
    in the direct group, 4 and above in the body-referenced one) both buffers
    are unchanged altogether, even when they are supplied; and no pointer
    becomes null or stops being null. *)
Theorem writes_stay_inside_blocks (ext : External) (this : DopplerError)
    (parameters : nat -> Buffer) (mem mem' : Memory) (b : bool) (k : nat) :
  EvaluateWithMinimalJacobians ext this parameters mem = Returned (b, mem') ->
  let n := match block_size (parameter_block_group_ this) k with
           | Some n => n
           | None => 0%nat
           end in
  same_from n (entry (jacobians mem) k) (entry (jacobians mem') k) /\
  same_from n (entry (jacobians_minimal mem) k) (entry (jacobians_minimal mem') k).
Proof.
  intros Hrun n.
  destruct (evaluate_rows ext this parameters mem mem' b Hrun) as [l [_ [_ [_ Hout]]]].
  destruct (jacobians mem) as [J|].
  - destruct Hout as [rows [J' [_ [Hfit [HJ Hb]]]]].
    specialize (Hfit k). specialize (Hb k).
    pose proof (block_outcome_raw _ _ _ _ _ Hb) as Hraw.
    pose proof (block_outcome_minimal _ _ _ _ _ Hb) as Hmin.
    simpl in Hraw, Hmin. rewrite HJ. simpl entry at 1 2. rewrite Hraw, Hmin.
    destruct (rows k) as [[raw minimal]|].
    + destruct Hfit as [Hsize [Hle _]]. unfold n. rewrite Hsize.
      split; [apply same_from_store; lia|].
      destruct (J k); [apply same_from_store; exact Hle | apply same_from_refl].
    + split; [apply same_from_refl|].
      destruct (J k); apply same_from_refl.
  - destruct Hout as [-> ->]. split; apply same_from_refl.
Qed.

Lemma writes_stay_inside_blocks_witness :
  exists mem',
    EvaluateWithMinimalJacobians Scene.ext Scene.direct Scene.parameters_direct
      Scene.all_requested = Returned (true, mem') /\
    same_from 0 (Some Scene.filled) (entry (jacobians mem') 3) /\
    same_from 3 (Some Scene.filled) (entry (jacobians mem') 1).
Proof.
  eexists. split; [reflexivity|].
  split.
  - exact (proj1 (writes_stay_inside_blocks Scene.ext Scene.direct Scene.parameters_direct
                    Scene.all_requested _ true 3%nat eq_refl)).
  - exact (proj1 (writes_stay_inside_blocks Scene.ext Scene.direct Scene.parameters_direct
                    Scene.all_requested _ true 1%nat eq_refl)).
Defined.

(** X4: for every block but the pose block of the body-referenced group,
    when both buffers of the block are supplied, the minimal Jacobian written
    is the raw Jacobian written, coefficient by coefficient. *)
Theorem minimal_is_raw_outside_pose (ext : External) (this : DopplerError)
    (parameters : nat -> Buffer) (mem mem' : Memory) (b : bool) (k n : nat)
    (raw0 min0 : Buffer) :
  EvaluateWithMinimalJacobians ext this parameters mem = Returned (b, mem') ->
  block_size (parameter_block_group_ this) k = Some n ->
  ~ (parameter_block_group_ this = 2%Z /\ k = 0%nat) ->
  entry (jacobians mem) k = Some raw0 ->
  entry (jacobians_minimal mem) k = Some min0 ->
  exists raw1 min1,
    entry (jacobians mem') k = Some raw1 /\
    entry (jacobians_minimal mem') k = Some min1 /\
    forall j, (j < n)%nat -> min1 j = raw1 j.
Proof.
  intros Hrun Hsize Hpose Hraw0 Hmin0.
  destruct (evaluate_rows ext this parameters mem mem' b Hrun) as [l [_ [_ [_ Hout]]]].
  destruct (jacobians mem) as [J|]; [|discriminate Hraw0].
  simpl in Hraw0.
  destruct Hout as [rows [J' [_ [Hfit [HJ Hb]]]]].
  specialize (Hfit k). specialize (Hb k).
  pose proof (block_outcome_raw _ _ _ _ _ Hb) as Hraw.
  pose proof (block_outcome_minimal _ _ _ _ _ Hb) as Hmin.
  simpl in Hraw, Hmin. rewrite HJ. simpl entry at 1. rewrite Hraw, Hmin.
  destruct (rows k) as [[raw minimal]|]; [|congruence].
  destruct Hfit as [Hlen [_ [->|Hp]]]; [|contradiction].
  rewrite Hraw0, Hmin0. simpl.
  eexists. eexists. split; [reflexivity|]. split; [reflexivity|].
  intros j Hj. rewrite Hsize in Hlen. injection Hlen as ->.
  rewrite !store_inside by exact Hj. reflexivity.
Qed.

Lemma minimal_is_raw_outside_pose_witness :
  exists mem' raw1 min1,
    EvaluateWithMinimalJacobians Scene.ext Scene.body_turning Scene.parameters_turned
      Scene.all_requested = Returned (true, mem') /\
    entry (jacobians mem') 1 = Some raw1 /\
    entry (jacobians_minimal mem') 1 = Some min1 /\
    min1 8%nat = raw1 8%nat.
Proof.
  eexists.
  assert (Hpose : ~ (parameter_block_group_ Scene.body_turning = 2%Z /\ 1%nat = 0%nat)).
  { intros [_ H]. discriminate H. }
  destruct (minimal_is_raw_outside_pose Scene.ext Scene.body_turning
              Scene.parameters_turned Scene.all_requested _ true 1 9
              Scene.filled Scene.filled eq_refl eq_refl Hpose eq_refl eq_refl)
    as [raw1 [min1 [Hr [Hm Heq]]]].
  exists raw1, min1.
  split; [reflexivity|]. split; [exact Hr|]. split; [exact Hm|]. apply Heq. lia.
Defined.

(** ** The values of the Jacobians *)

Lemma scaled_clock_row (w : R) : scale w J_freq = [- w].
Proof. unfold scale, J_freq. simpl. f_equal. ring. Qed.

Lemma scaled_row (w : R) (r : RowVector3d) :
  scale w (coeffs r) = [w * rx r; w * ry r; w * rz r].
Proof. reflexivity. Qed.

(** The locals of the body-referenced branch, when it returns. *)
Lemma decode_body (this : DopplerError) (parameters : nat -> Buffer) (l : Locals) :
  is_estimate_body_ this = true ->
  decode this parameters = Returned l ->
  exists c,
    coordinate_ this = Some c /\
    isZeroSetted c = true /\
    body l = Some {| q_WS := Map_Quaterniond (parameters 0%nat) 3;
                     t_SR_S := Map_Vector3d (parameters 2%nat) 0;
                     coordinate := c |} /\
    t_WR_ECEF l =
      convert c (vadd (Map_Vector3d (parameters 0%nat) 0)
                      (transformVector (Map_Quaterniond (parameters 0%nat) 3)
                                       (Map_Vector3d (parameters 2%nat) 0))) ENU ECEF /\
    v_WR_ECEF l =
      rotate c (vadd (Map_Vector3d (parameters 1%nat) 0)
                     (mvec (mmul (skewSymmetric (angular_velocity_ this))
                                 (toRotationMatrix (Map_Quaterniond (parameters 0%nat) 3)))
                           (Map_Vector3d (parameters 2%nat) 0))) ENU ECEF /\
    clock_frequency l = parameters 3%nat 0%nat.
Proof.
  intros Hb Hl. unfold decode in Hl. rewrite Hb in Hl. simpl negb in Hl. cbv iota in Hl.
  destruct (coordinate_ this) as [c|]; [|discriminate Hl].
  destruct (isZeroSetted c) eqn:Hz; simpl in Hl; [|discriminate Hl].
  injection Hl as <-. exists c. simpl. repeat split; (reflexivity || exact Hz).
Qed.

(** X5: the direct variant writes, for the velocity block, the weight times
    the unit line-of-sight vector from the receiver position of block 0 to
    the satellite, and for the clock block minus the weight; neither depends
    on the velocity or on the clock. *)
Theorem direct_velocity_and_clock_jacobians (ext : External) (this : DopplerError)
    (parameters : nat -> Buffer) (mem : Memory) (J : PointerArray) :
  is_estimate_body_ this = false ->
  parameter_block_group_ this = 1%Z ->
  jacobians mem = Some J ->
  let p_sat := sat_position (satellite_ this) in
  let p_rcv := Map_Vector3d (parameters 0%nat) 0 in
  let los := line_of_sight p_sat p_rcv (satelliteToReceiverDistance ext p_sat p_rcv) in
  let w := square_root_information_ (weighting_ this) in
  exists mem',
    EvaluateWithMinimalJacobians ext this parameters mem = Returned (true, mem') /\
    entry (jacobians mem') 1 =
      option_map (store [w * vx los; w * vy los; w * vz los]) (J 1%nat) /\
    entry (jacobians mem') 2 = option_map (store [- w]) (J 2%nat).
Proof.
  intros Hbody Hgroup Hjac p_sat p_rcv los w.
  pose proof (decode_direct this parameters Hbody) as Hl.
  set (l := {| t_WR_ECEF := Map_Vector3d (parameters 0%nat) 0;
               v_WR_ECEF := Map_Vector3d (parameters 1%nat) 0;
               clock_frequency := parameters 2%nat 0%nat; body := None |}) in Hl.
  destruct (evaluate_blocks ext this parameters mem l J (direct_rows ext this l) Hl Hjac)
    as [mem' [J' [E [_ [HJ Hb]]]]]; [left; auto|].
  exists mem'. split; [exact E|]. rewrite HJ. simpl entry.
  split.
  - pose proof (block_outcome_raw _ _ _ _ _ (Hb 1%nat)) as H1.
    change (J' 1%nat = option_map (store (scale w (coeffs (J_v_ECEF ext this l))))
                                  (J 1%nat)) in H1.
    rewrite H1, J_v_ECEF_coefficients. reflexivity.
  - pose proof (block_outcome_raw _ _ _ _ _ (Hb 2%nat)) as H2.
    change (J' 2%nat = option_map (store (scale w J_freq)) (J 2%nat)) in H2.
    rewrite H2, scaled_clock_row. reflexivity.
Qed.

Lemma direct_velocity_and_clock_jacobians_witness :
  exists mem' b2,
    EvaluateWithMinimalJacobians Scene.ext Scene.direct Scene.parameters_direct
      Scene.all_requested = Returned (true, mem') /\
    entry (jacobians mem') 2 = Some b2 /\
    b2 0%nat = - square_root_information_ (Scene.weighting 2 1).
Proof.
  destruct (direct_velocity_and_clock_jacobians Scene.ext Scene.direct
              Scene.parameters_direct Scene.all_requested (fun _ => Some Scene.filled)
              eq_refl eq_refl eq_refl) as [mem' [E [_ H2]]].
  exists mem'. eexists. split; [exact E|]. split; [exact H2 | reflexivity].
Defined.

Lemma body_rows_decoded (ext : External) (this : DopplerError) (l : Locals)
    (b : BodyLocals) :
  body l = Some b -> body_rows ext this l = body_jacobians ext this l b.
Proof. intro H. unfold body_rows. rewrite H. reflexivity. Qed.

(** X6: the body-referenced variant writes, for the velocity-and-bias block,
    the weight times (unit line of sight, as a row) x (rotation matrix from
    ENU to ECEF) in the first three doubles and zero in the six doubles of
    the biases; for the clock block it writes minus the weight. *)
Theorem body_speed_and_clock_jacobians (ext : External) (this : DopplerError)
    (parameters : nat -> Buffer) (mem : Memory) (l : Locals) (c : GeoCoordinate)
    (J : PointerArray) :
  is_estimate_body_ this = true ->
  parameter_block_group_ this = 2%Z ->
  coordinate_ this = Some c ->
  decode this parameters = Returned l ->
  jacobians mem = Some J ->
  let p_sat := sat_position (satellite_ this) in
  let los := line_of_sight p_sat (t_WR_ECEF l)
               (satelliteToReceiverDistance ext p_sat (t_WR_ECEF l)) in
  let jv := rmul (transpose los) (rotationMatrix c ENU ECEF) in
  let w := square_root_information_ (weighting_ this) in
  exists mem',
    EvaluateWithMinimalJacobians ext this parameters mem = Returned (true, mem') /\
    entry (jacobians mem') 1 =
      option_map (store [w * rx jv; w * ry jv; w * rz jv; 0; 0; 0; 0; 0; 0]) (J 1%nat) /\
    entry (jacobians mem') 3 = option_map (store [- w]) (J 3%nat).
Proof.
  intros Hbody Hgroup Hc Hl Hjac p_sat los jv w.
  destruct (decode_body this parameters l Hbody Hl) as [c' [Hc' [_ [Hb _]]]].
  rewrite Hc in Hc'. injection Hc' as <-.
  destruct (evaluate_blocks ext this parameters mem l J
              (body_block_rows ext this l parameters) Hl Hjac)
    as [mem' [J' [E [_ [HJ Hblocks]]]]]; [right; auto|].
  exists mem'. split; [exact E|]. rewrite HJ. simpl entry.
  split.
  - pose proof (block_outcome_raw _ _ _ _ _ (Hblocks 1%nat)) as H1.
    change (J' 1%nat =
            option_map (store (scale w (J_speed_and_bias (body_rows ext this l))))
                       (J 1%nat)) in H1.
    rewrite H1, (body_rows_decoded ext this l _ Hb).
    unfold body_jacobians. cbv zeta. simpl J_speed_and_bias.
    rewrite J_v_ECEF_coefficients.
    replace (scale w (set_cols 0
               (coeffs (rmul (transpose (e ext this l)) (rotationMatrix c ENU ECEF)))
               (Zero 9)))
      with [w * rx jv; w * ry jv; w * rz jv; 0; 0; 0; 0; 0; 0]; [reflexivity|].
    unfold set_cols, scale, Zero. simpl.
    rewrite !Rmult_0_r. reflexivity.
  - pose proof (block_outcome_raw _ _ _ _ _ (Hblocks 3%nat)) as H3.
    change (J' 3%nat = option_map (store (scale w J_freq)) (J 3%nat)) in H3.
    rewrite H3, scaled_clock_row. reflexivity.
Qed.

Lemma body_speed_and_clock_jacobians_witness :
  exists mem' b1,
    EvaluateWithMinimalJacobians Scene.ext Scene.body_turning Scene.parameters_turned
      Scene.all_requested = Returned (true, mem') /\
    entry (jacobians mem') 1 = Some b1 /\
    b1 3%nat = 0 /\ b1 8%nat = 0 /\ b1 9%nat = 9.
Proof.
  edestruct (body_speed_and_clock_jacobians Scene.ext Scene.body_turning
               Scene.parameters_turned Scene.all_requested _ (Scene.geo true)
               (fun _ => Some Scene.filled) eq_refl eq_refl eq_refl eq_refl eq_refl)
    as [mem' [E [H1 _]]].
  exists mem'. eexists. split; [exact E|]. split; [exact H1|].
  split; [reflexivity|]. split; reflexivity.
Defined.

(** X7: with A = (unit line of sight, as a row) x (rotation matrix from ENU
    to ECEF) x skew(angular velocity), the body-referenced variant writes the
    weight times A x R(q) for the lever-arm block.  Its minimal pose row is
    zero for the translation and the weight times A x (- skew(R(q) x lever
    arm)) for the rotation, so the raw pose Jacobian is made of the last
    three rows of the lift matrix only. *)
Theorem body_lever_arm_and_pose_jacobians (ext : External) (this : DopplerError)
    (parameters : nat -> Buffer) (mem : Memory) (l : Locals) (c : GeoCoordinate)
    (J : PointerArray) :
  is_estimate_body_ this = true ->
  parameter_block_group_ this = 2%Z ->
  coordinate_ this = Some c ->
  decode this parameters = Returned l ->
  jacobians mem = Some J ->
  let p_sat := sat_position (satellite_ this) in
  let los := line_of_sight p_sat (t_WR_ECEF l)
               (satelliteToReceiverDistance ext p_sat (t_WR_ECEF l)) in
  let A := rmul (rmul (transpose los) (rotationMatrix c ENU ECEF))
                (skewSymmetric (angular_velocity_ this)) in
  let q := Map_Quaterniond (parameters 0%nat) 3 in
  let lever := Map_Vector3d (parameters 2%nat) 0 in
  let jt := rmul A (toRotationMatrix q) in
  let jq := rmul A (mneg (skewSymmetric (mvec (toRotationMatrix q) lever))) in
  let lift := liftJacobian ext (parameters 0%nat) in
  let w := square_root_information_ (weighting_ this) in
  exists mem',
    EvaluateWithMinimalJacobians ext this parameters mem = Returned (true, mem') /\
    entry (jacobians mem') 2 =
      option_map (store [w * rx jt; w * ry jt; w * rz jt]) (J 2%nat) /\
    entry (jacobians_minimal mem') 0 =
      match J 0%nat with
      | Some _ => option_map (store [0; 0; 0; w * rx jq; w * ry jq; w * rz jq])
                             (entry (jacobians_minimal mem) 0)
      | None => entry (jacobians_minimal mem) 0
      end /\
    forall b0, J 0%nat = Some b0 ->
      exists b0',
        entry (jacobians mem') 0 = Some b0' /\
        forall j, (j < 7)%nat ->
          b0' j = w * rx jq * lift (21 + j)%nat + w * ry jq * lift (28 + j)%nat
                  + w * rz jq * lift (35 + j)%nat.
Proof.
  intros Hbody Hgroup Hc Hl Hjac p_sat los A q lever jt jq lift w.
  destruct (decode_body this parameters l Hbody Hl) as [c' [Hc' [_ [Hb _]]]].
  rewrite Hc in Hc'. injection Hc' as <-.
  destruct (evaluate_blocks ext this parameters mem l J
              (body_block_rows ext this l parameters) Hl Hjac)
    as [mem' [J' [E [_ [HJ Hblocks]]]]]; [right; auto|].
  assert (Hpose : scale w (J_T_WS (body_rows ext this l)) =
                  [0; 0; 0; w * rx jq; w * ry jq; w * rz jq]).
  { rewrite (body_rows_decoded ext this l _ Hb).
    unfold body_jacobians. cbv zeta. simpl J_T_WS.
    rewrite J_v_ECEF_coefficients.
    unfold set_cols, scale, Zero. simpl.
    rewrite !Rmult_0_r. reflexivity. }
  exists mem'. split; [exact E|]. rewrite HJ. simpl entry.
  split; [|split].
  - pose proof (block_outcome_raw _ _ _ _ _ (Hblocks 2%nat)) as H2.
    change (J' 2%nat =
            option_map (store (scale w (coeffs (J_t_SR_S (body_rows ext this l)))))
                       (J 2%nat)) in H2.
    rewrite H2, (body_rows_decoded ext this l _ Hb).
    unfold body_jacobians. cbv zeta. simpl J_t_SR_S.
    rewrite J_v_ECEF_coefficients. reflexivity.
  - pose proof (block_outcome_minimal _ _ _ _ _ (Hblocks 0%nat)) as H0.
    change (entry (jacobians_minimal mem') 0 =
            match J 0%nat with
            | Some _ => option_map (store (scale w (J_T_WS (body_rows ext this l))))
                                   (entry (jacobians_minimal mem) 0)
            | None => entry (jacobians_minimal mem) 0
            end) in H0.
    rewrite H0, Hpose. reflexivity.
  - intros b0 Hb0.
    pose proof (block_outcome_raw _ _ _ _ _ (Hblocks 0%nat)) as H0.
    change (J' 0%nat =
            option_map (store (row_times 7 (scale w (J_T_WS (body_rows ext this l)))
                                 (Map_RowMajor 6 7 lift))) (J 0%nat)) in H0.
    rewrite H0, Hb0, Hpose. simpl option_map.
    eexists. split; [reflexivity|].
    intros j Hj.
    destruct j as [|[|[|[|[|[|[|j]]]]]]]; try lia;
      unfold store; simpl; unfold dotl; simpl; ring.
Qed.

Lemma body_lever_arm_and_pose_jacobians_witness :
  exists mem' m0,
    EvaluateWithMinimalJacobians Scene.ext Scene.body_turning Scene.parameters_turned
      Scene.all_requested = Returned (true, mem') /\
    entry (jacobians_minimal mem') 0 = Some m0 /\
    m0 0%nat = 0 /\ m0 1%nat = 0 /\ m0 2%nat = 0.
Proof.
  edestruct (body_lever_arm_and_pose_jacobians Scene.ext Scene.body_turning
               Scene.parameters_turned Scene.all_requested _ (Scene.geo true)
               (fun _ => Some Scene.filled) eq_refl eq_refl eq_refl eq_refl eq_refl)
    as [mem' [E [_ [H0 _]]]].
  exists mem'. eexists. split; [exact E|]. split; [exact H0|].
  split; [reflexivity|]. split; reflexivity.
Defined.

(** ** What the residual depends on *)

(** X8: an evaluation depends on the parameter blocks only through the
    doubles that [decode] reads: three of the position, three of the velocity
    and the clock in the direct variant; the seven of the pose, the first
    three of the velocity-and-bias block, the three of the lever arm and the
    clock in the body-referenced one.  Two arrays that agree on them are
    decoded alike, give the same residual, and in the direct group the same
    outcome altogether. *)
Theorem evaluation_reads_only_decoded_entries (ext : External) (this : DopplerError)
    (p p' : nat -> Buffer) (mem : Memory) :
  (forall k j, reads (is_estimate_body_ this) k j = true -> p' k j = p k j) ->
  decode this p' = decode this p /\
  (parameter_block_group_ this = 1%Z ->
   EvaluateWithMinimalJacobians ext this p' mem =
   EvaluateWithMinimalJacobians ext this p mem) /\
  (forall b m,
     EvaluateWithMinimalJacobians ext this p mem = Returned (b, m) ->
     exists m',
       EvaluateWithMinimalJacobians ext this p' mem = Returned (true, m') /\
       residuals m' = residuals m).
Proof.
  intro Hagree.
  assert (Hdec : decode this p' = decode this p).
  { unfold decode, Map_Vector3d, Map_Quaterniond. simpl Nat.add.
    destruct (is_estimate_body_ this).
    - rewrite (Hagree 0%nat 0%nat eq_refl), (Hagree 0%nat 1%nat eq_refl), (Hagree 0%nat 2%nat eq_refl),
        (Hagree 0%nat 3%nat eq_refl), (Hagree 0%nat 4%nat eq_refl), (Hagree 0%nat 5%nat eq_refl),
        (Hagree 0%nat 6%nat eq_refl), (Hagree 1%nat 0%nat eq_refl), (Hagree 1%nat 1%nat eq_refl),
        (Hagree 1%nat 2%nat eq_refl), (Hagree 2%nat 0%nat eq_refl), (Hagree 2%nat 1%nat eq_refl),
        (Hagree 2%nat 2%nat eq_refl), (Hagree 3%nat 0%nat eq_refl).
      reflexivity.
    - rewrite (Hagree 0%nat 0%nat eq_refl), (Hagree 0%nat 1%nat eq_refl), (Hagree 0%nat 2%nat eq_refl),
        (Hagree 1%nat 0%nat eq_refl), (Hagree 1%nat 1%nat eq_refl), (Hagree 1%nat 2%nat eq_refl),
        (Hagree 2%nat 0%nat eq_refl).
      reflexivity. }
  split; [exact Hdec|]. split.
  - intro Hgroup. unfold EvaluateWithMinimalJacobians. rewrite Hdec.
    destruct (decode this p) as [msg|exn|l]; simpl; try reflexivity.
    destruct (jacobians mem) as [J|]; [|reflexivity].
    rewrite Hgroup. reflexivity.
  - intros b m Hrun.
    destruct (evaluate_returned ext this p mem _ Hrun) as [l Hl].
    destruct (evaluate_decoded ext this p mem l Hl) as [m1 [E1 [Hres1 _]]].
    rewrite E1 in Hrun. injection Hrun as _ <-.
    rewrite <- Hdec in Hl.
    destruct (evaluate_decoded ext this p' mem l Hl) as [m2 [E2 [Hres2 _]]].
    exists m2. split; [exact E2|]. rewrite Hres1, Hres2. reflexivity.
Qed.

Lemma evaluation_reads_only_decoded_entries_witness :
  exists m m',
    EvaluateWithMinimalJacobians Scene.ext Scene.body_turning Scene.parameters_turned
      Scene.all_requested = Returned (true, m) /\
    EvaluateWithMinimalJacobians Scene.ext Scene.body_turning Variation.parameters_biased
      Scene.all_requested = Returned (true, m') /\
    residuals m' = residuals m.
Proof.
  assert (Hagree : forall k j,
             reads (is_estimate_body_ Scene.body_turning) k j = true ->
             Variation.parameters_biased k j = Scene.parameters_turned k j).
  { intros k j H.
    destruct k as [|[|k]]; try reflexivity.
    destruct j as [|[|[|j]]]; try reflexivity. discriminate H. }
  eexists.
  destruct (proj2 (proj2 (evaluation_reads_only_decoded_entries Scene.ext
                            Scene.body_turning Scene.parameters_turned
                            Variation.parameters_biased Scene.all_requested Hagree))
              true _ eq_refl) as [m' [E Hres]].
  exists m'. split; [reflexivity|]. split; [exact E | exact Hres].
Defined.

(** ** Jacobians against finite steps of the residual *)


Lemma weighted_error_with_velocity (ext : External) (this : DopplerError) (l : Locals)
    (v : Vector3d) :
  let w := square_root_information_ (weighting_ this) in
  let los := e ext this l in
  let p_sat := sat_position (satellite_ this) in
  let d := vsub v (v_WR_ECEF l) in
  weighted_error ext this (with_velocity l v) =
  weighted_error ext this l
  + (w * vx los * vx d + w * vy los * vy d + w * vz los * vz d)
  - w * (OMGE ext / CLIGHT ext) * (vy p_sat * vx d - vx p_sat * vy d).
Proof.
  unfold weighted_error, error, doppler_estimate, range_rate, e, rho, with_velocity,
    vdot, vsub, vdiv. simpl. unfold Rdiv. ring.
Qed.



(** X10: the velocity Jacobian of the direct variant leaves out the earth
    rotation term.  When only the receiver velocity changes, by d, the
    residual changes by the velocity Jacobian written (weight x unit line of
    sight) times d, minus weight x (OMGE / CLIGHT) x (y_sat d_x - x_sat d_y)
    for the satellite position (x_sat, y_sat, z_sat). *)
Theorem velocity_step_of_direct_residual (ext : External) (this : DopplerError)
    (p p' : nat -> Buffer) (mem : Memory) (J : PointerArray) (b : Buffer) :
  is_estimate_body_ this = false ->
  parameter_block_group_ this = 1%Z ->
  Map_Vector3d (p' 0%nat) 0 = Map_Vector3d (p 0%nat) 0 ->
  p' 2%nat 0%nat = p 2%nat 0%nat ->
  jacobians mem = Some J ->
  J 1%nat = Some b ->
  let d := vsub (Map_Vector3d (p' 1%nat) 0) (Map_Vector3d (p 1%nat) 0) in
  let p_sat := sat_position (satellite_ this) in
  let w := square_root_information_ (weighting_ this) in
  exists m m' b',
    EvaluateWithMinimalJacobians ext this p mem = Returned (true, m) /\
    EvaluateWithMinimalJacobians ext this p' mem = Returned (true, m') /\
    entry (jacobians m) 1 = Some b' /\
    residuals m' 0%nat =
    residuals m 0%nat
    + (b' 0%nat * vx d + b' 1%nat * vy d + b' 2%nat * vz d)
    - w * (OMGE ext / CLIGHT ext) * (vy p_sat * vx d - vx p_sat * vy d).
Proof.
  intros Hbody Hgroup Hpos Hclock Hjac Hb d p_sat w.
  pose proof (decode_direct this p Hbody) as Hl.
  pose proof (decode_direct this p' Hbody) as Hl'.
  rewrite Hpos, Hclock in Hl'.
  set (l := {| t_WR_ECEF := Map_Vector3d (p 0%nat) 0;
               v_WR_ECEF := Map_Vector3d (p 1%nat) 0;
               clock_frequency := p 2%nat 0%nat; body := None |}) in *.
  change (decode this p' = Returned (with_velocity l (Map_Vector3d (p' 1%nat) 0))) in Hl'.
  destruct (evaluate_blocks ext this p mem l J (direct_rows ext this l) Hl Hjac)
    as [m [J' [E [Hres [HJ Hblocks]]]]]; [left; auto|].
  destruct (evaluate_decoded ext this p' mem _ Hl') as [m' [E' [Hres' _]]].
  pose proof (block_outcome_raw _ _ _ _ _ (Hblocks 1%nat)) as Hraw.
  change (J' 1%nat = option_map (store (scale w (coeffs (J_v_ECEF ext this l))))
                                (J 1%nat)) in Hraw.
  rewrite Hb, J_v_ECEF_coefficients in Hraw. simpl option_map in Hraw.
  exists m, m'. eexists.
  split; [exact E|]. split; [exact E'|].
  split; [rewrite HJ; exact Hraw|].
  rewrite Hres, Hres'. unfold store. simpl nth.
  apply weighted_error_with_velocity.
Qed.

Lemma velocity_step_of_direct_residual_witness :
  exists m m' b',
    EvaluateWithMinimalJacobians Scene.ext Scene.direct Scene.parameters_direct
      Scene.all_requested = Returned (true, m) /\
    EvaluateWithMinimalJacobians Scene.ext Scene.direct Variation.parameters_moving
      Scene.all_requested = Returned (true, m') /\
    entry (jacobians m) 1 = Some b' /\
    residuals m' 0%nat =
    residuals m 0%nat
    + (b' 0%nat * (1 - 0) + b' 1%nat * (2 - 0) + b' 2%nat * (3 - 0))
    - square_root_information_ (Scene.weighting 2 1)
      * (7.2921151467e-5 / 299792458) * (0 * (1 - 0) - 20000000 * (2 - 0)).
Proof.
  exact (velocity_step_of_direct_residual Scene.ext Scene.direct Scene.parameters_direct
           Variation.parameters_moving Scene.all_requested
           (fun _ => Some Scene.filled) Scene.filled
           eq_refl eq_refl eq_refl eq_refl eq_refl eq_refl).
Defined.

(** ** The body-referenced residual through the direct one *)

Lemma transformVector_is_rotation (q : Quaterniond) (v : Vector3d) :
  transformVector q v = mvec (toRotationMatrix q) v.
Proof.
  unfold transformVector, toRotationMatrix, mvec, rdot, cross, vadd, vscale. simpl.
  f_equal; ring.
Qed.

Lemma skew_times_rotation (w : Vector3d) (m : Matrix3d) (v : Vector3d) :
  mvec (mmul (skewSymmetric w) m) v = cross w (mvec m v).
Proof.
  unfold mvec, mmul, rmul, rdot, skewSymmetric, cross, col0, col1, col2. simpl.
  f_equal; ring.
Qed.

Lemma weighted_error_same_state (ext : External) (this that : DopplerError)
    (l l' : Locals) :
  satellite_ that = satellite_ this ->
  observation_ that = observation_ this ->
  weighting_ that = weighting_ this ->
  t_WR_ECEF l' = t_WR_ECEF l ->
  v_WR_ECEF l' = v_WR_ECEF l ->
  clock_frequency l' = clock_frequency l ->
  weighted_error ext that l' = weighted_error ext this l.
Proof.
  intros Hs Ho Hw Ht Hv Hc.
  unfold weighted_error, error, doppler_estimate, range_rate, e, rho.
  rewrite Hs, Ho, Hw, Ht, Hv, Hc. reflexivity.
Qed.

(** X11: the residual of the body-referenced variant is the residual of the
    direct variant, for the same satellite, observation and weighting, at the
    antenna: the position is the body position plus the lever arm turned by
    the rotation matrix of the quaternion, converted to ECEF; the velocity is
    the body velocity plus (angular velocity) x (turned lever arm), rotated
    to ECEF; the clock is the one of block 3. *)
Theorem body_residual_is_direct_residual (ext : External) (this : DopplerError)
    (c : GeoCoordinate) (p : nat -> Buffer) (mem memA mem' : Memory) (b : bool) :
  is_estimate_body_ this = true ->
  coordinate_ this = Some c ->
  EvaluateWithMinimalJacobians ext this p mem = Returned (b, mem') ->
  let arm := mvec (toRotationMatrix (Map_Quaterniond (p 0%nat) 3))
                  (Map_Vector3d (p 2%nat) 0) in
  let antenna :=
    {| t_WR_ECEF := convert c (vadd (Map_Vector3d (p 0%nat) 0) arm) ENU ECEF;
       v_WR_ECEF := rotate c (vadd (Map_Vector3d (p 1%nat) 0)
                                   (cross (angular_velocity_ this) arm)) ENU ECEF;
       clock_frequency := p 3%nat 0%nat;
       body := None |} in
  exists memA',
    EvaluateWithMinimalJacobians ext (direct_counterpart this)
      (effective_parameters antenna) memA = Returned (true, memA') /\
    residuals memA' 0%nat = residuals mem' 0%nat.
Proof.
  intros Hbody Hc Hrun arm antenna.
  destruct (evaluate_returned ext this p mem _ Hrun) as [l Hl].
  destruct (evaluate_decoded ext this p mem l Hl) as [m1 [E1 [Hres1 _]]].
  rewrite E1 in Hrun. injection Hrun as _ <-.
  destruct (decode_body this p l Hbody Hl) as [c' [Hc' [_ [_ [Ht [Hv Hclk]]]]]].
  rewrite Hc in Hc'. injection Hc' as <-.
  rewrite transformVector_is_rotation in Ht. rewrite skew_times_rotation in Hv.
  assert (HlA : decode (direct_counterpart this) (effective_parameters antenna) =
                Returned antenna).
  { rewrite decode_direct by reflexivity.
    unfold effective_parameters. rewrite !Map_of_coeffs. reflexivity. }
  destruct (evaluate_decoded ext (direct_counterpart this) (effective_parameters antenna)
              memA antenna HlA) as [mA [EA [HresA _]]].
  exists mA. split; [exact EA|].
  rewrite HresA, Hres1. unfold store. simpl nth.
  apply weighted_error_same_state; try reflexivity; symmetry; assumption.
Qed.

Lemma body_residual_is_direct_residual_witness :
  exists mem' memA',
    EvaluateWithMinimalJacobians Scene.ext Scene.body_turning Scene.parameters_turned
      Scene.all_requested = Returned (true, mem') /\
    EvaluateWithMinimalJacobians Scene.ext (direct_counterpart Scene.body_turning)
      (effective_parameters
         {| t_WR_ECEF :=
              convert (Scene.geo true)
                (vadd (V3 10 20 30)
                      (mvec (toRotationMatrix (Quat 0 0 1 0)) (V3 1 0 0))) ENU ECEF;
            v_WR_ECEF :=
              rotate (Scene.geo true)
                (vadd (V3 1 2 3)
                      (cross (V3 0 0 1)
                             (mvec (toRotationMatrix (Quat 0 0 1 0)) (V3 1 0 0))))
                ENU ECEF;
            clock_frequency := 5;
            body := None |})
      Scene.only_minimal = Returned (true, memA') /\
    residuals memA' 0%nat = residuals mem' 0%nat.
Proof.
  eexists.
  destruct (body_residual_is_direct_residual Scene.ext Scene.body_turning (Scene.geo true)
              Scene.parameters_turned Scene.all_requested Scene.only_minimal _ true
              eq_refl eq_refl eq_refl) as [memA' [EA Hres]].
  exists memA'. split; [reflexivity|]. split; [exact EA | exact Hres].
Defined.

(** ** More on the weighting *)

Lemma sqrt_inv_square_abs (x : R) : x <> 0 -> sqrt (/ (x * x)) = 1 / Rabs x.
Proof.
  intro Hx.
  assert (Ha : 0 < Rabs x) by (apply Rabs_pos_lt; exact Hx).
  replace (x * x) with (Rabs x * Rabs x).
  - apply sqrt_inv_square. exact Ha.
  - unfold Rabs. destruct (Rcase_abs x); ring.
Qed.

(** X12: for a satellite whose system has the error ratio [r], an error
    factor and a ratio that are not zero give a positive variance and the
    positive weight 1 / |factor x ratio|; the weight squared is the
    information, and the stored inverse of the weight is |factor x ratio|, the
    inverse indeed. *)
Theorem weighting_for_nonzero_factors (sat : Satellite) (ratios : list (ascii * R))
    (f r : R) :
  map_at ratios (getSystem sat) = Returned r ->
  f <> 0 ->
  r <> 0 ->
  exists w,
    setInformation sat {| doppler_error_factor := f; system_error_ratio := ratios |}
    = Returned w /\
    0 < covariance_ w /\
    square_root_information_ w = 1 / Rabs (f * r) /\
    0 < square_root_information_ w /\
    square_root_information_ w * square_root_information_ w = information_ w /\
    square_root_information_inverse_ w = Rabs (f * r) /\
    square_root_information_ w * square_root_information_inverse_ w = 1.
Proof.
  intros Hr Hf Hr0.
  assert (Hfr : f * r <> 0) by (apply Rmult_integral_contrapositive; auto).
  assert (Ha : 0 < Rabs (f * r)) by (apply Rabs_pos_lt; exact Hfr).
  assert (Hsq : square f * square r = (f * r) * (f * r)) by (unfold square; ring).
  assert (Hw : llt_matrixL (/ (square f * square r)) = 1 / Rabs (f * r)).
  { unfold llt_matrixL. rewrite Hsq. apply sqrt_inv_square_abs. exact Hfr. }
  eexists. split.
  { apply setInformation_weight. simpl. exact Hr. }
  simpl. rewrite Hw.
  split; [rewrite Hsq; nra|].
  split; [reflexivity|].
  split; [unfold Rdiv; rewrite Rmult_1_l; apply Rinv_0_lt_compat; exact Ha|].
  split.
  - rewrite Hsq. replace ((f * r) * (f * r)) with (Rabs (f * r) * Rabs (f * r)).
    + field. lra.
    + unfold Rabs. destruct (Rcase_abs (f * r)); ring.
  - split; field; lra.
Qed.

Lemma weighting_for_nonzero_factors_witness :
  exists w,
    setInformation Scene.satellite (Scene.error_parameter (-2) 1) = Returned w /\
    square_root_information_ w = 1 / Rabs (-2 * 1) /\
    square_root_information_inverse_ w = Rabs (-2 * 1).
Proof.
  assert (H2 : -2 <> 0) by lra.
  assert (H1 : 1 <> 0) by lra.
  destruct (weighting_for_nonzero_factors Scene.satellite
              (system_error_ratio (Scene.error_parameter (-2) 1)) (-2) 1 eq_refl H2 H1)
    as [w [Hset [_ [Hsri [_ [_ [Hinv _]]]]]]].
  exists w. split; [exact Hset|]. split; [exact Hsri | exact Hinv].
Defined.

(** X13: the weighting does not see the signs: the opposite error factor,
    or a table in which the ratio of the satellite's system is the opposite,
    gives the same outcome of [setInformation]. *)
Theorem weighting_ignores_signs (sat : Satellite) (ratios ratios' : list (ascii * R))
    (f r : R) :
  map_at ratios (getSystem sat) = Returned r ->
  map_at ratios' (getSystem sat) = Returned (- r) ->
  setInformation sat {| doppler_error_factor := - f; system_error_ratio := ratios |} =
  setInformation sat {| doppler_error_factor := f; system_error_ratio := ratios |} /\
  setInformation sat {| doppler_error_factor := f; system_error_ratio := ratios' |} =
  setInformation sat {| doppler_error_factor := f; system_error_ratio := ratios |}.
Proof.
  intros Hr Hr'.
  rewrite (setInformation_weight sat
             {| doppler_error_factor := - f; system_error_ratio := ratios |} r Hr).
  rewrite (setInformation_weight sat
             {| doppler_error_factor := f; system_error_ratio := ratios' |} (- r) Hr').
  rewrite (setInformation_weight sat
             {| doppler_error_factor := f; system_error_ratio := ratios |} r Hr).
  simpl.
  replace (square (- f)) with (square f) by (unfold square; ring).
  replace (square (- r)) with (square r) by (unfold square; ring).
  split; reflexivity.
Qed.

Lemma weighting_ignores_signs_witness :
  setInformation Scene.satellite (Scene.error_parameter (- 2) 1) =
  setInformation Scene.satellite (Scene.error_parameter 2 1) /\
  setInformation Scene.satellite (Scene.error_parameter 2 (- 1)) =
  setInformation Scene.satellite (Scene.error_parameter 2 1).
Proof.
  exact (weighting_ignores_signs Scene.satellite
           (system_error_ratio (Scene.error_parameter 2 1))
           (system_error_ratio (Scene.error_parameter 2 (- 1))) 2 1 eq_refl eq_refl).
Defined.

Lemma weight_positive_nonzero_factors (sat : Satellite) (ep : GnssErrorParameter)
    (r : R) (w : Weighting) :
  map_at (system_error_ratio ep) (getSystem sat) = Returned r ->
  doppler_error_factor ep <> 0 ->
  r <> 0 ->
  setInformation sat ep = Returned w ->
  0 < square_root_information_ w.
Proof.
  intros Hr Hf Hr0 Hset.
  rewrite (setInformation_weight sat ep r Hr) in Hset. injection Hset as <-. simpl.
  assert (Hfr : doppler_error_factor ep * r <> 0)
    by (apply Rmult_integral_contrapositive; auto).
  unfold llt_matrixL.
  replace (square (doppler_error_factor ep) * square r)
    with ((doppler_error_factor ep * r) * (doppler_error_factor ep * r))
    by (unfold square; ring).
  rewrite sqrt_inv_square_abs by exact Hfr.
  unfold Rdiv. rewrite Rmult_1_l. apply Rinv_0_lt_compat. apply Rabs_pos_lt. exact Hfr.
Qed.

(** X14: for an instance whose weighting comes from an error factor and a
    ratio that are not zero, the residual written is zero exactly when the
    observed Doppler is the predicted Doppler. *)
Theorem residual_zero_iff_prediction_met (ext : External) (this : DopplerError)
    (ep : GnssErrorParameter) (r : R) (p : nat -> Buffer) (mem mem' : Memory) (b : bool) :
  setInformation (satellite_ this) ep = Returned (weighting_ this) ->
  map_at (system_error_ratio ep) (getSystem (satellite_ this)) = Returned r ->
  doppler_error_factor ep <> 0 ->
  r <> 0 ->
  EvaluateWithMinimalJacobians ext this p mem = Returned (b, mem') ->
  exists l,
    decode this p = Returned l /\
    (residuals mem' 0%nat = 0 <->
     doppler (observation_ this) =
     predicted_doppler ext (satellite_ this) (t_WR_ECEF l) (v_WR_ECEF l)
       (clock_frequency l)).
Proof.
  intros Hset Hr Hf Hr0 Hrun.
  pose proof (weight_positive_nonzero_factors (satellite_ this) ep r (weighting_ this)
                Hr Hf Hr0 Hset) as Hpos.
  destruct (evaluate_returned ext this p mem _ Hrun) as [l Hl].
  destruct (evaluate_decoded ext this p mem l Hl) as [m1 [E1 [Hres1 _]]].
  rewrite E1 in Hrun. injection Hrun as _ <-.
  exists l. split; [exact Hl|].
  rewrite Hres1. unfold store. simpl nth.
  change (predicted_doppler ext (satellite_ this) (t_WR_ECEF l) (v_WR_ECEF l)
            (clock_frequency l)) with (doppler_estimate ext this l).
  unfold weighted_error, error.
  split; intro H.
  - apply Rmult_integral in H. destruct H as [H|H]; lra.
  - rewrite H. ring.
Qed.

Lemma residual_zero_iff_prediction_met_witness :
  exists mem',
    EvaluateWithMinimalJacobians Scene.ext Scene.direct Scene.parameters_direct
      Scene.all_requested = Returned (true, mem') /\
    (residuals mem' 0%nat = 0 <->
     0 = predicted_doppler Scene.ext Scene.satellite (V3 6378000 0 0) (V3 0 0 0) 0).
Proof.
  assert (H2 : 2 <> 0) by lra.
  assert (H1 : 1 <> 0) by lra.
  eexists.
  destruct (residual_zero_iff_prediction_met Scene.ext Scene.direct
              (Scene.error_parameter 2 1) 1 Scene.parameters_direct Scene.all_requested
              _ true eq_refl eq_refl H2 H1 eq_refl) as [l [Hl Hiff]].
  injection Hl as <-.
  split; [reflexivity | exact Hiff].
Defined.

(** ** Construction and the table of error ratios *)

Lemma map_at_returns (m : list (ascii * R)) (key : ascii) :
  (exists v, map_at m key = Returned v) <-> (exists v, In (key, v) m).
Proof.
  induction m as [|[k v] rest IH]; simpl.
  - split; intros [v H]; [discriminate H | contradiction].
  - destruct (Ascii.eqb k key) eqn:Hk.
    + apply Ascii.eqb_eq in Hk. subst k.
      split; intros _; exists v; [left|]; reflexivity.
    + apply Ascii.eqb_neq in Hk. rewrite IH.
      split; intros [v' H]; exists v'.
      * right. exact H.
      * destruct H as [H|H]; [injection H as H _; contradiction | exact H].
Qed.

Lemma map_at_throws (m : list (ascii * R)) (key : ascii) :
  map_at m key = Thrown "std::out_of_range" <-> (forall v, ~ In (key, v) m).
Proof.
  induction m as [|[k v] rest IH]; simpl.
  - split; [intros _ v H; exact H | reflexivity].
  - destruct (Ascii.eqb k key) eqn:Hk.
    + apply Ascii.eqb_eq in Hk. subst k.
      split; [discriminate|]. intro H. exfalso. apply (H v). left. reflexivity.
    + apply Ascii.eqb_neq in Hk. rewrite IH.
      split; intros H v'.
      * intros [H'|H']; [injection H' as H' _; contradiction | exact (H v' H')].
      * intro H'. apply (H v'). right. exact H'.
Qed.

(** X15: with one of the two supported tuples of block sizes, the
    constructor returns an instance exactly when the table of error ratios
    has an entry for the system of the satellite, and lets
    [std::out_of_range] escape exactly when it has none.  The instance holds
    the satellite and the observation of the index, and the weighting that
    [setInformation] computes for that satellite. *)
Theorem constructor_needs_system_ratio (ext : External) (Ns : list Z)
    (measurement : GnssMeasurement) (index : GnssMeasurementIndex)
    (error_parameter : GnssErrorParameter) :
  Ns = [3; 3; 1]%Z \/ Ns = [7; 9; 3; 1]%Z ->
  let system := getSystem (getSat measurement index) in
  let built := DopplerError_ctor ext Ns measurement index error_parameter in
  ((exists this, built = Returned this) <->
   (exists r, In (system, r) (system_error_ratio error_parameter))) /\
  (built = Thrown "std::out_of_range" <->
   (forall r, ~ In (system, r) (system_error_ratio error_parameter))) /\
  (forall this,
     built = Returned this ->
     satellite_ this = getSat measurement index /\
     observation_ this = getObs measurement index /\
     setInformation (satellite_ this) error_parameter = Returned (weighting_ this)).
Proof.
  intros HNs system built.
  assert (Hcheck : exists g, check_parameter_blocks Ns = Returned g).
  { destruct HNs as [->| ->]; eexists; reflexivity. }
  destruct Hcheck as [g Hg].
  unfold built, DopplerError_ctor. rewrite Hg. simpl bind.
  unfold setInformation. fold system.
  pose proof (map_at_returns (system_error_ratio error_parameter) system) as Hret.
  pose proof (map_at_throws (system_error_ratio error_parameter) system) as Hthr.
  destruct (map_at (system_error_ratio error_parameter) system) as [msg|exn|r] eqn:Hat;
    simpl.
  - exfalso. exact (map_at_not_fatal _ _ _ Hat).
  - split; [|split].
    + rewrite <- Hret. split; intros [x H]; discriminate H.
    + rewrite <- Hthr. split; intro H; injection H as ->; reflexivity.
    + intros this H. discriminate H.
  - split; [|split].
    + rewrite <- Hret. split; intros _; eexists; reflexivity.
    + rewrite <- Hthr. split; intro H; discriminate H.
    + intros this H. injection H as <-. simpl.
      split; [reflexivity|]. split; [reflexivity|].
      unfold setInformation. unfold system in Hat. rewrite Hat. reflexivity.
Qed.

Lemma constructor_needs_system_ratio_witness :
  (exists this,
     DopplerError_ctor Scene.ext [7; 9; 3; 1]%Z Scene.measurement 0%nat
       (Scene.error_parameter 2 1) = Returned this) <->
  (exists r, In ("G"%char, r) [("G"%char, 1); ("R"%char, 5)]).
Proof.
  exact (proj1 (constructor_needs_system_ratio Scene.ext [7; 9; 3; 1]%Z Scene.measurement
                  0%nat (Scene.error_parameter 2 1) (or_intror eq_refl))).
Defined.

(** ** Node options *)

Lemma push_back_all (A : Type) (l init : list A) :
  fold_left NodeOptionHandle.push_back l init = init ++ l.
Proof.
  revert init. induction l as [|x l IH]; intro init; simpl.
  - rewrite app_nil_r. reflexivity.
  - rewrite IH. unfold NodeOptionHandle.push_back. rewrite <- app_assoc. reflexivity.
Qed.

(** X16: [NodeBase::tags] returns the input tags followed by the output
    tags, each list in its order and with its repetitions: as many tags as
    both lists together, a tag at the position it has in its list (shifted by
    the number of input tags for an output tag), and a tag is returned
    exactly when it is an input tag or an output tag. *)
Theorem tags_are_inputs_then_outputs (n : NodeOptionHandle.NodeBase) :
  let inputs := NodeOptionHandle.input_tags n in
  let outputs := NodeOptionHandle.output_tags n in
  NodeOptionHandle.tags n = inputs ++ outputs /\
  List.length (NodeOptionHandle.tags n) = (List.length inputs + List.length outputs)%nat /\
  (forall i, (i < List.length inputs)%nat ->
             nth_error (NodeOptionHandle.tags n) i = nth_error inputs i) /\
  (forall i, nth_error (NodeOptionHandle.tags n) (List.length inputs + i)
             = nth_error outputs i) /\
  (forall t, In t (NodeOptionHandle.tags n) <-> In t inputs \/ In t outputs) /\
  (forall t, count_occ string_dec (NodeOptionHandle.tags n) t =
             (count_occ string_dec inputs t + count_occ string_dec outputs t)%nat).
Proof.
  intros inputs outputs.
  assert (H : NodeOptionHandle.tags n = inputs ++ outputs).
  { unfold NodeOptionHandle.tags. cbv zeta. rewrite !push_back_all. reflexivity. }
  rewrite H.
  split; [reflexivity|].
  split; [apply length_app|].
  split; [intros i Hi; apply nth_error_app1; exact Hi|].
  split.
  - intro i. rewrite nth_error_app2 by lia. f_equal. lia.
  - split; [intro t; apply in_app_iff | intro t; apply count_occ_app].
Qed.

(** ** Signal handles *)

(** X17: for two distinct signal numbers, [initializeSignalHandles]
    registers [handlePipe] for the first and [handleSegv] for the second,
    both with an empty mask and no flags, and leaves the action of every
    other signal as it was; a second call changes nothing.  The handler
    registered for the first signal logs one line and returns, the one
    registered for the second ends the process. *)
Theorem initializeSignalHandles_installs (SIGPIPE SIGSEGV : Z)
    (d : SignalHandle.Dispositions) :
  SIGPIPE <> SIGSEGV ->
  let d' := SignalHandle.initializeSignalHandles SIGPIPE SIGSEGV d in
  d' SIGPIPE = {| SignalHandle.sa_handler := SignalHandle.Pipe;
                  SignalHandle.sa_mask := [];
                  SignalHandle.sa_flags := 0 |} /\
  d' SIGSEGV = {| SignalHandle.sa_handler := SignalHandle.Segv;
                  SignalHandle.sa_mask := [];
                  SignalHandle.sa_flags := 0 |} /\
  (forall s, s <> SIGPIPE -> s <> SIGSEGV -> d' s = d s) /\
  (forall s, SignalHandle.initializeSignalHandles SIGPIPE SIGSEGV d' s = d' s) /\
  (forall sig log,
     SignalHandle.run (SignalHandle.sa_handler (d' SIGPIPE)) sig log =
     Some (Returned (log ++ [(SignalHandle.INFO, "Received a pipe exception!"%string)]))) /\
  (forall sig log,
     SignalHandle.run (SignalHandle.sa_handler (d' SIGSEGV)) sig log =
     Some (Fatal "Received a segment fault exception!")).
Proof.
  intros Hne d'.
  assert (Hp : d' SIGPIPE = {| SignalHandle.sa_handler := SignalHandle.Pipe;
                               SignalHandle.sa_mask := [];
                               SignalHandle.sa_flags := 0 |}).
  { unfold d', SignalHandle.initializeSignalHandles, SignalHandle.sigaction.
    destruct (SIGPIPE =? SIGSEGV)%Z eqn:E; [apply Z.eqb_eq in E; contradiction|].
    rewrite Z.eqb_refl. reflexivity. }
  assert (Hs : d' SIGSEGV = {| SignalHandle.sa_handler := SignalHandle.Segv;
                               SignalHandle.sa_mask := [];
                               SignalHandle.sa_flags := 0 |}).
  { unfold d', SignalHandle.initializeSignalHandles, SignalHandle.sigaction.
    rewrite Z.eqb_refl. reflexivity. }
  split; [exact Hp|]. split; [exact Hs|].
  split.
  - intros s H1 H2.
    unfold d', SignalHandle.initializeSignalHandles, SignalHandle.sigaction.
    apply Z.eqb_neq in H1, H2. rewrite H1, H2. reflexivity.
  - split.
    + intro s.
      unfold SignalHandle.initializeSignalHandles at 1. unfold SignalHandle.sigaction.
      destruct (s =? SIGSEGV)%Z eqn:E2.
      * apply Z.eqb_eq in E2. subst s. symmetry. exact Hs.
      * destruct (s =? SIGPIPE)%Z eqn:E1; [|reflexivity].
        apply Z.eqb_eq in E1. subst s. symmetry. exact Hp.
    + rewrite Hp, Hs. split; intros sig log; reflexivity.
Qed.

Lemma initializeSignalHandles_installs_witness :
  SignalHandle.sa_handler
    (SignalHandle.initializeSignalHandles 13 11
       (fun _ => {| SignalHandle.sa_handler := SignalHandle.Foreign 0;
                    SignalHandle.sa_mask := [];
                    SignalHandle.sa_flags := 0 |}) 13%Z) = SignalHandle.Pipe.
Proof.
  assert (Hne : 13%Z <> 11%Z) by discriminate.
  exact (f_equal SignalHandle.sa_handler
           (proj1 (initializeSignalHandles_installs 13 11
                     (fun _ => {| SignalHandle.sa_handler := SignalHandle.Foreign 0;
                                  SignalHandle.sa_mask := [];
                                  SignalHandle.sa_flags := 0 |}) Hne))).
Defined.

(** ** Evaluating again *)

Lemma store_store (row : RowVector) (b : Buffer) (j : nat) :
  store row (store row b) j = store row b j.
Proof.
  unfold store.
  destruct (Nat.lt_ge_cases j (List.length row)) as [H|H].
  - apply nth_indep. exact H.
  - rewrite !nth_overflow by exact H. reflexivity.
Qed.

Lemma same_from_store_again (row : RowVector) (x : option Buffer) :
  same_from 0 (option_map (store row) x) (option_map (store row) (option_map (store row) x)).
Proof.
  destruct x as [b|]; simpl; [|exact I].
  intros j _. apply store_store.
Qed.

(** X18: evaluating a second time on the memory that a first evaluation
    left changes nothing: the call returns, and the residual buffer and every
    raw and minimal Jacobian buffer hold, double for double, what they held
    after the first call. *)
Theorem evaluating_again_changes_nothing (ext : External) (this : DopplerError)
    (p : nat -> Buffer) (mem mem' : Memory) (b : bool) :
  EvaluateWithMinimalJacobians ext this p mem = Returned (b, mem') ->
  exists mem'',
    EvaluateWithMinimalJacobians ext this p mem' = Returned (true, mem'') /\
    (forall j, residuals mem'' j = residuals mem' j) /\
    forall k,
      same_from 0 (entry (jacobians mem') k) (entry (jacobians mem'') k) /\
      same_from 0 (entry (jacobians_minimal mem') k) (entry (jacobians_minimal mem'') k).
Proof.
  intro Hrun.
  destruct (evaluate_rows ext this p mem mem' b Hrun) as [l [Hl [_ [Hres Hout]]]].
  destruct (evaluate_decoded ext this p mem' l Hl) as [mem'' [E [Hres' _]]].
  exists mem''. split; [exact E|].
  split; [intro j; rewrite Hres', Hres; apply store_store|].
  intro k.
  destruct (evaluate_rows ext this p mem' mem'' true E) as [l' [Hl' [_ [_ Hout']]]].
  rewrite Hl in Hl'. injection Hl' as <-.
  destruct (jacobians mem) as [J|].
  - destruct Hout as [rows [J' [Hrows [_ [HJ Hb]]]]].
    rewrite HJ in Hout'.
    destruct Hout' as [rows' [J'' [Hrows' [_ [HJ' Hb']]]]].
    assert (Heq : rows' = rows).
    { destruct Hrows as [[-> Hg]|[[-> Hg]|[-> [Hg Hg']]]];
        destruct Hrows' as [[-> Hg2]|[[-> Hg2]|[-> [Hg2 Hg2']]]];
        try reflexivity; congruence. }
    subst rows'.
    pose proof (block_outcome_raw _ _ _ _ _ (Hb k)) as R1.
    pose proof (block_outcome_minimal _ _ _ _ _ (Hb k)) as M1.
    pose proof (block_outcome_raw _ _ _ _ _ (Hb' k)) as R2.
    pose proof (block_outcome_minimal _ _ _ _ _ (Hb' k)) as M2.
    simpl in R1, M1, R2, M2.
    rewrite HJ, HJ'. simpl entry at 1 2. rewrite R2, M2, R1, M1.
    destruct (rows k) as [[raw minimal]|].
    + split; [apply same_from_store_again|].
      destruct (J k); simpl; [apply same_from_store_again | apply same_from_refl].
    + split; [apply same_from_refl|].
      destruct (J k); apply same_from_refl.
  - destruct Hout as [HJ HM]. rewrite HJ in Hout'. destruct Hout' as [HJ' HM'].
    rewrite HJ, HJ', HM'. split; apply same_from_refl.
Qed.

Lemma evaluating_again_changes_nothing_witness :
  exists mem' mem'',
    EvaluateWithMinimalJacobians Scene.ext Scene.body_turning Scene.parameters_turned
      Scene.all_requested = Returned (true, mem') /\
    EvaluateWithMinimalJacobians Scene.ext Scene.body_turning Scene.parameters_turned
      mem' = Returned (true, mem'') /\
    residuals mem'' 0%nat = residuals mem' 0%nat.
Proof.
  eexists.
  destruct (evaluating_again_changes_nothing Scene.ext Scene.body_turning
              Scene.parameters_turned Scene.all_requested _ true eq_refl)
    as [mem'' [E [Hres _]]].
  exists mem''. split; [reflexivity|]. split; [exact E | apply Hres].
Defined.

(** ** Without angular velocity *)

(** X19: when the angular velocity of the body-referenced variant is zero,
    the raw Jacobian written for the pose block (seven doubles) and the one
    written for the lever-arm block (three doubles) are zero, whatever the
    lever arm and the rotation. *)
Theorem no_angular_velocity_no_pose_jacobian (ext : External) (this : DopplerError)
    (p : nat -> Buffer) (mem : Memory) (l : Locals) (J : PointerArray) :
  is_estimate_body_ this = true ->
  parameter_block_group_ this = 2%Z ->
  angular_velocity_ this = V3 0 0 0 ->
  decode this p = Returned l ->
  jacobians mem = Some J ->
  exists mem',
    EvaluateWithMinimalJacobians ext this p mem = Returned (true, mem') /\
    (forall b0, J 0%nat = Some b0 ->
       exists b0', entry (jacobians mem') 0 = Some b0' /\
                   (forall j, (j < 7)%nat -> b0' j = 0) /\
                   (forall j, (7 <= j)%nat -> b0' j = b0 j)) /\
    (forall b2, J 2%nat = Some b2 ->
       exists b2', entry (jacobians mem') 2 = Some b2' /\
                   (forall j, (j < 3)%nat -> b2' j = 0) /\
                   (forall j, (3 <= j)%nat -> b2' j = b2 j)).
Proof.
  intros Hbody Hgroup Hw Hl Hjac.
  destruct (decode_body this p l Hbody Hl) as [c [_ [_ [Hb _]]]].
  destruct (evaluate_blocks ext this p mem l J (body_block_rows ext this l p) Hl Hjac)
    as [mem' [J' [E [_ [HJ Hblocks]]]]]; [right; auto|].
  destruct (body_jacobians_zero_lever_arm ext this Hw l
              {| q_WS := Map_Quaterniond (p 0%nat) 3; t_SR_S := Map_Vector3d (p 2%nat) 0;
                 coordinate := c |}) as [Hpose Hlever].
  rewrite <- (body_rows_decoded ext this l _ Hb) in Hpose, Hlever.
  exists mem'. split; [exact E|]. rewrite HJ. simpl entry.
  split.
  - intros b0 Hb0.
    pose proof (block_outcome_raw _ _ _ _ _ (Hblocks 0%nat)) as H0.
    change (J' 0%nat =
            option_map (store (row_times 7
                                 (scale (square_root_information_ (weighting_ this))
                                        (J_T_WS (body_rows ext this l)))
                                 (Map_RowMajor 6 7 (liftJacobian ext (p 0%nat)))))
                       (J 0%nat)) in H0.
    rewrite H0, Hb0, Hpose. simpl option_map.
    eexists. split; [reflexivity|]. split.
    + intros j Hj. apply store_lifted_zero_row. exact Hj.
    + intros j Hj. apply store_outside. unfold row_times.
      rewrite length_map, length_seq. exact Hj.
  - intros b2 Hb2.
    pose proof (block_outcome_raw _ _ _ _ _ (Hblocks 2%nat)) as H2.
    change (J' 2%nat =
            option_map (store (scale (square_root_information_ (weighting_ this))
                                     (coeffs (J_t_SR_S (body_rows ext this l)))))
                       (J 2%nat)) in H2.
    rewrite H2, Hb2, Hlever. simpl option_map.
    eexists. split; [reflexivity|]. split.
    + intros j Hj. apply store_scaled_zero_row. exact Hj.
    + intros j Hj. apply store_outside. simpl. exact Hj.
Qed.

Lemma no_angular_velocity_no_pose_jacobian_witness :
  exists mem' b0' b2',
    EvaluateWithMinimalJacobians Scene.ext
      (setCoordinate Scene.body_referenced (Scene.geo true))
      Scene.parameters_turned Scene.all_requested = Returned (true, mem') /\
    entry (jacobians mem') 0 = Some b0' /\ b0' 5%nat = 0 /\ b0' 7%nat = 9 /\
    entry (jacobians mem') 2 = Some b2' /\ b2' 0%nat = 0.
Proof.
  edestruct (no_angular_velocity_no_pose_jacobian Scene.ext
               (setCoordinate Scene.body_referenced (Scene.geo true))
               Scene.parameters_turned Scene.all_requested _
               (fun _ => Some Scene.filled) eq_refl eq_refl eq_refl eq_refl eq_refl)
    as [mem' [E [H0 H2]]].
  destruct (H0 Scene.filled eq_refl) as [b0' [Hb0 [Hz0 Hk0]]].
  destruct (H2 Scene.filled eq_refl) as [b2' [Hb2 [Hz2 _]]].
  exists mem', b0', b2'.
  split; [exact E|]. split; [exact Hb0|]. split; [apply Hz0; lia|].
  split; [rewrite Hk0 by lia; reflexivity|].
  split; [exact Hb2 | apply Hz2; lia].
Defined.
